(** * Adaptive tetrahedral remeshing: the remesher core and the
      triangulation iterators

    A shallow embedding of
      - [Triangulation_iterators_3.h]: the cell, vertex, edge and facet
        iterators of a triangulation, in their "all" and "finite" modes;
      - [tetrahedral_adaptive_remeshing_impl.h]: the class
        [Adaptive_remesher] (constructor, [init_c3t3],
        [resolution_reached], [postprocess], [finalize],
        [check_vertex_dimensions] and the phase methods),
    followed by the properties of both.

    Number types.  [FT] is the field type of the geometric kernel; it is
    taken to be exact and modelled by the rationals [Q].  The type
    [Subdomain_index] is a template parameter of the remesher that the
    code only treats as an integer ([max_si = 0], [max_si + 1],
    [std::max]); it is modelled by [Z].  Handles are indices into the
    vertex and cell containers. *)

From stdpp Require Import gmap strings list fin_maps.
From Stdlib Require Import QArith ZArith Lia.

Close Scope Q_scope.
Close Scope Z_scope.
Open Scope nat_scope.

Set Warnings "-clear-no-such-hyp".

(* ===================================================================== *)
(** * Part I: definitions                                                 *)
(* ===================================================================== *)

(** ** Triangulation_iterators_3.h *)

Module Triangulation_iterators_3.

Section Iterators.
(** The element type of the underlying [Tds] sequence and the test
    [_tr->is_infinite(...)] on an element. *)
Context {A : Type}.
Variable is_infinite : A -> bool.

(** [Iterator_base]: an iterator of the data structure.  It is
    represented by the part of the [Tds] sequence that lies between the
    current position and the past-the-end position: [++_ib] drops the
    head, [*_ib] is the head and [_ib == end] is emptiness. *)
Definition Iterator_base := list A.

Definition ib_incr (ib : Iterator_base) : Iterator_base := tail ib.
Definition ib_deref (ib : Iterator_base) : option A := head ib.
Definition ib_is_end (ib : Iterator_base) : bool :=
  match ib with [] => true | _ :: _ => false end.

(** The members [_ib] and [_inf] of the four iterator classes ([_tr] is
    the triangulation that provides the sequence and [is_infinite]). *)
Record Iterator := mkIterator { _ib : Iterator_base; _inf : bool }.

(** [operator*] *)
Definition deref (it : Iterator) : option A := ib_deref (_ib it).

(** [operator==] for two iterators of the same triangulation: when one
    of them is past the end only the positions are compared. *)
Definition iterator_eq (a b : Iterator) : bool :=
  if ib_is_end (_ib a) || ib_is_end (_ib b)
  then Nat.eqb (length (_ib a)) (length (_ib b))
  else Nat.eqb (length (_ib a)) (length (_ib b)) && Bool.eqb (_inf a) (_inf b).

(** Past-the-end constructor: [_ib(&(tr->_tds), 1), _inf(true)]. *)
Definition iterator_end : Iterator := mkIterator [] true.

(** *** Cell, edge and facet iterators

    The three classes have the same code; it is embedded once. *)

(** The loop [while (is_infinite( *_ib )) ++_ib] of the constructor.  It
    has no test against the end of the sequence ("useless: there must
    be at least one finite cell"): running off the end dereferences the
    past-the-end position, which is [None] here. *)
Fixpoint skip_unguarded (ib : Iterator_base) : option Iterator_base :=
  match ib with
  | [] => None
  | a :: r => if is_infinite a then skip_unguarded r else Some ib
  end.

(** Constructor [(tr, inf)]. *)
Definition iterator_begin (tds : list A) (inf : bool) : option Iterator :=
  if negb inf
  then ib ← skip_unguarded tds; Some (mkIterator ib inf)
  else Some (mkIterator tds inf).

(** The test and step of [do { ++_ib; } while (_ib != end &&
    is_infinite( *_ib ))], entered after the first [++_ib]. *)
Fixpoint skip_guarded (ib : Iterator_base) : Iterator_base :=
  match ib with
  | [] => []
  | a :: r => if is_infinite a then skip_guarded r else ib
  end.

(** [operator++] *)
Definition incr (it : Iterator) : Iterator :=
  if _inf it
  then mkIterator (ib_incr (_ib it)) (_inf it)
  else mkIterator (skip_guarded (ib_incr (_ib it))) (_inf it).

(** *** Vertex iterator *)

(** [_tr->is_infinite(the handle at _ib)] compares the handle with
    the handle of the infinite vertex without reading the vertex; at the
    past-the-end position the comparison is with a handle that is no
    vertex of the triangulation, and it is false. *)
Definition vertex_is_infinite_at (ib : Iterator_base) : bool :=
  match ib_deref ib with
  | Some a => is_infinite a
  | None => false
  end.

(** Constructor [(tr, inf)]. *)
Definition vertex_iterator_begin (tds : list A) (inf : bool) : Iterator :=
  if negb inf
  then (if vertex_is_infinite_at tds
        then mkIterator (ib_incr tds) inf
        else mkIterator tds inf)
  else mkIterator tds inf.

(** [operator++] *)
Definition vertex_incr (it : Iterator) : Iterator :=
  if _inf it
  then mkIterator (ib_incr (_ib it)) (_inf it)
  else
    let ib := ib_incr (_ib it) in
    if vertex_is_infinite_at ib
    then mkIterator (ib_incr ib) (_inf it)
    else mkIterator ib (_inf it).

(** *** Traversals

    [for (it = begin; it != end; ++it) yield *it], for either
    [operator++].  The fuel bounds the number of rounds. *)
Fixpoint traverse (next : Iterator -> Iterator) (fuel : nat)
    (it : Iterator) : list A :=
  match fuel with
  | O => []
  | S n =>
      if iterator_eq it iterator_end then []
      else match deref it with
           | Some a => a :: traverse next n (next it)
           | None => []
           end
  end.

(** Every round moves the position forward, so the number of remaining
    elements is enough fuel. *)
Definition yielded (next : Iterator -> Iterator) (it : Iterator) : list A :=
  traverse next (length (_ib it)) it.

(** The finite elements of a sequence, in order. *)
Definition finite_elements (tds : list A) : list A :=
  List.filter (fun a => negb (is_infinite a)) tds.

(** The number of infinite elements of a sequence. *)
Definition nb_infinite (tds : list A) : nat :=
  length (List.filter is_infinite tds).

(** The head of a position is no infinite element. *)
Definition at_finite_or_end (ib : list A) : Prop :=
  match ib with
  | [] => True
  | a :: _ => is_infinite a = false
  end.

(** Two infinite elements follow each other somewhere in the sequence. *)
Fixpoint adjacent_infinite (tds : list A) : bool :=
  match tds with
  | [] => false
  | a :: r =>
      match r with
      | [] => false
      | b :: _ => (is_infinite a && is_infinite b) || adjacent_infinite r
      end
  end.

End Iterators.

End Triangulation_iterators_3.


(** ** The triangulation

    The container is an arena: a vertex handle is the index of a vertex in
    [vertices], a cell handle the index of a cell in [cells]. *)

Abbreviation Vertex_handle := nat (only parsing).
Abbreviation Cell_handle := nat (only parsing).
Abbreviation Subdomain_index := Z (only parsing).
Abbreviation FT := Q (only parsing).

Record Point_3 := mkPoint { px : FT; py : FT; pz : FT }.

Definition ORIGIN : Point_3 := mkPoint 0%Q 0%Q 0%Q.

(** A vertex: its position and [in_dimension()]. *)
Record Vertex := mkVertex { point : Point_3; in_dimension : Z }.

(** A cell: [V[4]], [N[4]] and [subdomain_index()]. *)
Record Cell := mkCell {
  V0 : Vertex_handle; V1 : Vertex_handle; V2 : Vertex_handle; V3 : Vertex_handle;
  N0 : Cell_handle; N1 : Cell_handle; N2 : Cell_handle; N3 : Cell_handle;
  subdomain_index : Subdomain_index
}.

(** [Cell::vertex(i)] and [Cell::neighbor(i)], for [i] in [0..3]. *)
Definition vertex (c : Cell) (i : nat) : Vertex_handle :=
  match i with 0 => V0 c | 1 => V1 c | 2 => V2 c | _ => V3 c end.

Definition neighbor (c : Cell) (i : nat) : Cell_handle :=
  match i with 0 => N0 c | 1 => N1 c | 2 => N2 c | _ => N3 c end.

(** [Cell::index(Cell_handle n)]: the position of [n] among the
    neighbours (the last position is only asserted). *)
Definition index (c : Cell) (n : Cell_handle) : nat :=
  if Nat.eqb n (N0 c) then 0
  else if Nat.eqb n (N1 c) then 1
  else if Nat.eqb n (N2 c) then 2
  else 3.

(** [Cell::has_vertex(v)] *)
Definition has_vertex (c : Cell) (v : Vertex_handle) : bool :=
  Nat.eqb v (V0 c) || Nat.eqb v (V1 c) || Nat.eqb v (V2 c) || Nat.eqb v (V3 c).

(** [Tr::Facet] is a pair (cell, index of the opposite vertex) and
    [Tr::Edge] a triple (cell, index, index). *)
Abbreviation Facet := (Cell_handle * nat)%type (only parsing).
Abbreviation Edge := (Cell_handle * nat * nat)%type (only parsing).

(** Modelled from the spec: [Triangulation_3] is not among the sources.
    The triangulation is the two containers, the infinite vertex, and the
    sequences that the facet and edge iterators of the data structure run
    through (one representative per facet and per edge). *)
Record Triangulation := mkTriangulation {
  vertices : list Vertex;
  cells : list Cell;
  infinite_vertex : Vertex_handle;
  tds_facets : list Facet;
  tds_edges : list Edge
}.

(** Reading through a handle.  A handle outside its container designates
    no element; reading through it gives these records, and writing
    through it changes nothing. *)
Definition no_vertex : Vertex := mkVertex ORIGIN (-1)%Z.
Definition no_cell : Cell := mkCell 0 0 0 0 0 0 0 0 0%Z.

Definition vertex_at (tr : Triangulation) (v : Vertex_handle) : Vertex :=
  default no_vertex (vertices tr !! v).

Definition cell_at (tr : Triangulation) (c : Cell_handle) : Cell :=
  default no_cell (cells tr !! c).

(** Modelled from the spec: [Tr::vertex_triple_index(i, j)], the indices
    of the three vertices of the facet opposite to vertex [i]. *)
Definition vertex_triple_index (i j : nat) : nat :=
  match i, j with
  | 0, 0 => 1 | 0, 1 => 3 | 0, _ => 2
  | 1, 0 => 0 | 1, 1 => 2 | 1, _ => 3
  | 2, 0 => 0 | 2, 1 => 3 | 2, _ => 1
  | _, 0 => 0 | _, 1 => 1 | _, _ => 2
  end.

(** Modelled from the spec: [tr.mirror_facet(f)], the same facet seen
    from the neighbouring cell. *)
Definition mirror_facet (tr : Triangulation) (f : Facet) : Facet :=
  let n := neighbor (cell_at tr f.1) f.2 in
  (n, index (cell_at tr n) f.1).

(** Modelled from the spec: the vertices of an edge and of a facet. *)
Definition edge_source (tr : Triangulation) (e : Edge) : Vertex_handle :=
  vertex (cell_at tr e.1.1) e.1.2.

Definition edge_target (tr : Triangulation) (e : Edge) : Vertex_handle :=
  vertex (cell_at tr e.1.1) e.2.

Definition facet_vertex (tr : Triangulation) (f : Facet) (j : nat) : Vertex_handle :=
  vertex (cell_at tr f.1) (vertex_triple_index f.2 j).

(** Modelled from the spec: [tr.is_infinite(...)] on a vertex, a cell, a
    facet and an edge.  [Triangulation_3] is not among the sources; an
    element is infinite when it references the infinite vertex. *)
Definition is_infinite_vertex (tr : Triangulation) (v : Vertex_handle) : bool :=
  Nat.eqb v (infinite_vertex tr).

Definition is_infinite_cell (tr : Triangulation) (c : Cell_handle) : bool :=
  has_vertex (cell_at tr c) (infinite_vertex tr).

Definition is_infinite_facet (tr : Triangulation) (f : Facet) : bool :=
  is_infinite_vertex tr (facet_vertex tr f 0)
  || is_infinite_vertex tr (facet_vertex tr f 1)
  || is_infinite_vertex tr (facet_vertex tr f 2).

Definition is_infinite_edge (tr : Triangulation) (e : Edge) : bool :=
  is_infinite_vertex tr (edge_source tr e) || is_infinite_vertex tr (edge_target tr e).

(** The ranges [finite_cells_begin() .. finite_cells_end()] and the like:
    what a finite-mode iterator yields on the sequence of the data
    structure. *)
Definition all_vertices (tr : Triangulation) : list Vertex_handle :=
  seq 0 (length (vertices tr)).

Definition all_cells (tr : Triangulation) : list Cell_handle :=
  seq 0 (length (cells tr)).

Definition finite_vertices (tr : Triangulation) : list Vertex_handle :=
  Triangulation_iterators_3.finite_elements (is_infinite_vertex tr) (all_vertices tr).

Definition finite_cells (tr : Triangulation) : list Cell_handle :=
  Triangulation_iterators_3.finite_elements (is_infinite_cell tr) (all_cells tr).

Definition finite_facets (tr : Triangulation) : list Facet :=
  Triangulation_iterators_3.finite_elements (is_infinite_facet tr) (tds_facets tr).

Definition finite_edges (tr : Triangulation) : list Edge :=
  Triangulation_iterators_3.finite_elements (is_infinite_edge tr) (tds_edges tr).

(** Modelled from the spec: [Triangulation()], the default-constructed
    triangulation.  The constructor is not among the sources; the empty
    triangulation has no cell and the infinite vertex only. *)
Definition Triangulation_default : Triangulation :=
  mkTriangulation [no_vertex] [] 0 [] [].

(** Modelled from the spec: [tr.segment(e).squared_length()], the
    squared Euclidean distance of the two vertices of the edge. *)
Definition Qsquare (a : FT) : FT := (a * a)%Q.

Definition squared_distance (p q : Point_3) : FT :=
  (Qsquare (px p - px q) + Qsquare (py p - py q) + Qsquare (pz p - pz q))%Q.

Definition squared_length (tr : Triangulation) (e : Edge) : FT :=
  squared_distance (point (vertex_at tr (edge_source tr e)))
                   (point (vertex_at tr (edge_target tr e))).

(** [a < b] on [FT]. *)
Definition FT_lt (a b : FT) : bool := negb (Qle_bool b a).

(** ** The complex

    Modelled from the spec: [Mesh_complex_3_in_triangulation_3] is not
    among the sources.  The complex is an overlay on the triangulation.
    A cell is in the complex exactly when its [subdomain_index] is not
    NONE (the default index, [Subdomain_index()]), and it is keyed by that
    index; facets, edges and corners are marked in sets of their own.  An
    edge is identified by the ordered pair of its vertices. *)

(** Modelled from the spec: the complex, a triangulation with the marked
    facets, the marked edges and the corners with their indices. *)
Record C3t3 := mkC3t3 {
  triangulation : Triangulation;
  facets_ : gset (Cell_handle * nat);
  edges_ : gset (Vertex_handle * Vertex_handle);
  corners_ : gmap Vertex_handle nat
}.

(** Modelled from the spec: [Subdomain_index()], the default index, which
    stands for "in no subdomain". *)
Definition NONE : Subdomain_index := 0%Z.

(** Modelled from the spec: [C3t3()], the complex that the remesher is
    built with, empty and over the default triangulation. *)
Definition C3t3_default : C3t3 := mkC3t3 Triangulation_default ∅ ∅ ∅.

Definition with_triangulation (c : C3t3) (tr : Triangulation) : C3t3 :=
  mkC3t3 tr (facets_ c) (edges_ c) (corners_ c).

(** Modelled from the spec: [v->set_dimension(d)]. *)
Definition set_dimension (c : C3t3) (v : Vertex_handle) (d : Z) : C3t3 :=
  let tr := triangulation c in
  with_triangulation c
    (mkTriangulation
       (alter (fun x => mkVertex (point x) d) v (vertices tr))
       (cells tr) (infinite_vertex tr) (tds_facets tr) (tds_edges tr)).

(** Modelled from the spec: [c->set_subdomain_index(i)]. *)
Definition set_subdomain_index (c : C3t3) (ch : Cell_handle) (i : Subdomain_index) : C3t3 :=
  let tr := triangulation c in
  with_triangulation c
    (mkTriangulation
       (vertices tr)
       (alter (fun x => mkCell (V0 x) (V1 x) (V2 x) (V3 x)
                               (N0 x) (N1 x) (N2 x) (N3 x) i) ch (cells tr))
       (infinite_vertex tr) (tds_facets tr) (tds_edges tr)).

(** [v->in_dimension()] and [c->subdomain_index()] through handles. *)
Definition dimension_of (c : C3t3) (v : Vertex_handle) : Z :=
  in_dimension (vertex_at (triangulation c) v).

Definition subdomain_of (c : C3t3) (ch : Cell_handle) : Subdomain_index :=
  subdomain_index (cell_at (triangulation c) ch).

(** Modelled from the spec: [make_vertex_pair<Tr>(e)], the two vertices
    of an edge, smaller handle first. *)
Definition make_vertex_pair (tr : Triangulation) (e : Edge) : Vertex_handle * Vertex_handle :=
  let v1 := edge_source tr e in
  let v2 := edge_target tr e in
  if Nat.ltb v2 v1 then (v2, v1) else (v1, v2).

(** Modelled from the spec: [is_in_complex] on a cell, a facet, an edge
    and a vertex. *)
Definition cell_is_in_complex (c : C3t3) (ch : Cell_handle) : bool :=
  negb (Z.eqb (subdomain_of c ch) NONE).

Definition facet_is_in_complex (c : C3t3) (f : Facet) : bool :=
  bool_decide (f ∈ facets_ c).

Definition edge_is_in_complex (c : C3t3) (e : Edge) : bool :=
  bool_decide (make_vertex_pair (triangulation c) e ∈ edges_ c).

Definition vertex_is_in_complex (c : C3t3) (v : Vertex_handle) : bool :=
  bool_decide (v ∈ dom (corners_ c)).

(** Modelled from the spec: [add_to_complex] on a cell with its index,
    on a facet, on an edge and on a vertex with its corner index. *)
Definition add_to_complex_cell (c : C3t3) (ch : Cell_handle) (i : Subdomain_index) : C3t3 :=
  set_subdomain_index c ch i.

Definition add_to_complex_facet (c : C3t3) (f : Facet) : C3t3 :=
  mkC3t3 (triangulation c) ({[ f ]} ∪ facets_ c) (edges_ c) (corners_ c).

Definition add_to_complex_edge (c : C3t3) (e : Edge) : C3t3 :=
  mkC3t3 (triangulation c) (facets_ c)
         ({[ make_vertex_pair (triangulation c) e ]} ∪ edges_ c) (corners_ c).

Definition add_to_complex_vertex (c : C3t3) (v : Vertex_handle) (corner_id : nat) : C3t3 :=
  mkC3t3 (triangulation c) (facets_ c) (edges_ c) (<[ v := corner_id ]> (corners_ c)).

(** Modelled from the spec: [remove_from_complex] on a cell.  The cell
    leaves the complex, that is, its index becomes NONE. *)
Definition remove_from_complex_cell (c : C3t3) (ch : Cell_handle) : C3t3 :=
  set_subdomain_index c ch NONE.

(** Modelled from the spec: the cells around an edge, and
    [nb_incident_subdomains(e, c3t3)].  The helpers header is not among
    the sources; the function counts the distinct subdomain indices of the
    cells incident to the edge. *)
Definition incident_cells (tr : Triangulation) (e : Edge) : list Cell_handle :=
  List.filter
    (fun ch => has_vertex (cell_at tr ch) (edge_source tr e)
               && has_vertex (cell_at tr ch) (edge_target tr e))
    (all_cells tr).

Definition nb_subdomains_around (tr : Triangulation) (e : Edge) : nat :=
  size (list_to_set (C := gset Z)
          ((fun ch => subdomain_index (cell_at tr ch)) <$> incident_cells tr e)).

Definition nb_incident_subdomains (e : Edge) (c : C3t3) : nat :=
  nb_subdomains_around (triangulation c) e.

(** Modelled from the spec: [nb_incident_complex_edges(v, c3t3)], the
    number of complex edges that have [v] as one of their vertices. *)
Definition nb_incident_complex_edges (v : Vertex_handle) (c : C3t3) : nat :=
  size (filter (fun p : Vertex_handle * Vertex_handle => p.1 = v ∨ p.2 = v) (edges_ c)).

(** ** tetrahedral_adaptive_remeshing_impl.h *)

(** The template parameters of [Adaptive_remesher].  A cell selector is
    called on a cell handle and may read the cell behind it; an edge
    constraint map is read with [get] on a pair of vertex handles. *)
Definition SizingFunction : Type := Point_3 -> FT.
Definition CellSelector : Type := Cell_handle -> Cell -> bool.
Definition EdgeIsConstrainedMap : Type := Vertex_handle * Vertex_handle -> bool.

(** [All_cells_selected::operator()] *)
Definition All_cells_selected : CellSelector :=
  fun _ c => negb (Z.eqb (subdomain_index c) NONE).

(** [get(No_constraint_pmap, key)] *)
Definition No_constraint_pmap : EdgeIsConstrainedMap := fun _ => false.

(** The functions of the included headers that are not among the sources
    ([add_imaginary_layer.h], [split_long_edges.h],
    [collapse_short_edges.h], [flip_edges.h], [smooth_vertices.h],
    [tetrahedral_remeshing_helpers.h] and [Triangulation_3::is_valid]).
    They are parameters of the embedding; an operator that works on its
    argument in place returns the new value. *)
Record Collaborators := mkCollaborators {
  is_valid : Triangulation -> bool;
  add_layer_of_imaginary_tets : Triangulation -> Subdomain_index -> Triangulation;
  split_long_edges : C3t3 -> FT -> bool -> Subdomain_index -> CellSelector -> C3t3;
  collapse_short_edges : C3t3 -> FT -> FT -> bool -> Subdomain_index -> CellSelector -> C3t3;
  flip_edges : C3t3 -> Subdomain_index -> bool -> CellSelector -> C3t3;
  smooth_vertices_new : C3t3 -> Subdomain_index -> bool -> CellSelector -> C3t3;
  is_boundary : C3t3 -> Edge -> CellSelector -> bool;
  is_imaginary : Edge -> C3t3 -> Subdomain_index -> bool
}.

(** The data members of [Adaptive_remesher], except the reference [m_tr]
    which lives in [Store] below. *)
Record Adaptive_remesher := mkAdaptive_remesher {
  m_sizing : SizingFunction;
  m_protect_boundaries : bool;
  m_c3t3 : C3t3;
  m_cell_selector : CellSelector;
  m_imaginary_index : Subdomain_index
}.

(** The remesher together with the caller's triangulation object, which
    the member reference [m_tr] designates. *)
Record Store := mkStore {
  m_tr : Triangulation;
  this : Adaptive_remesher
}.

Definition with_c3t3 (r : Adaptive_remesher) (c : C3t3) : Adaptive_remesher :=
  mkAdaptive_remesher (m_sizing r) (m_protect_boundaries r) c
                      (m_cell_selector r) (m_imaginary_index r).

(** [tr()] *)
Definition tr (r : Adaptive_remesher) : Triangulation := triangulation (m_c3t3 r).

(** [a.swap(b)] *)
Definition swap {T : Type} (a b : T) : T * T := (b, a).

(** *** init_c3t3 *)

(** [if (v->in_dimension() == -1) v->set_dimension(3)] for the vertex [i]
    of the cell [cit]: the body of the inner loop of "tag cells". *)
Definition tag_cell_vertex (cit : Cell_handle) (c : C3t3) (i : nat) : C3t3 :=
  let v := vertex (cell_at (triangulation c) cit) i in
  if Z.eqb (dimension_of c v) (-1) then set_dimension c v 3 else c.

(** One round of the loop "tag cells"; the state is the complex and
    [max_si]. *)
Definition tag_cell (sel : CellSelector) (st : C3t3 * Subdomain_index)
    (cit : Cell_handle) : C3t3 * Subdomain_index :=
  let st1 :=
    if sel cit (cell_at (triangulation st.1) cit)
    then
      let c := add_to_complex_cell st.1 cit (subdomain_of st.1 cit) in
      (c, Z.max st.2 (subdomain_of c cit))
    else st in
  (fold_left (tag_cell_vertex cit) (seq 0 4) st1.1, st1.2).

(** [if (v->in_dimension() == -1 || v->in_dimension() > d)
    v->set_dimension(d)]: the statement that the loops on facets, edges
    and vertices apply with [d] = 2, 1 and 0. *)
Definition lower_dimension (d : Z) (c : C3t3) (v : Vertex_handle) : C3t3 :=
  if Z.eqb (dimension_of c v) (-1) || Z.ltb d (dimension_of c v)
  then set_dimension c v d
  else c.

(** One round of the loop "tag facets". *)
Definition tag_facet (c : C3t3) (fit : Facet) : C3t3 :=
  let f := fit in
  let mf := mirror_facet (triangulation c) f in
  let s1 := subdomain_of c f.1 in
  let s2 := subdomain_of c mf.1 in
  if negb (Z.eqb s1 s2)
  then
    let c1 := add_to_complex_facet c f in
    let i := f.2 in
    fold_left
      (fun c2 j =>
         lower_dimension 2 c2
           (vertex (cell_at (triangulation c2) f.1) (vertex_triple_index i j)))
      (seq 0 3) c1
  else c.

(** One round of the loop "tag edges". *)
Definition tag_edge (ecmap : EdgeIsConstrainedMap) (c : C3t3) (eit : Edge) : C3t3 :=
  let e := eit in
  if ecmap (make_vertex_pair (triangulation c) e)
     || Nat.ltb 2 (nb_incident_subdomains e c)
  then
    let c1 := add_to_complex_edge c e in
    let c2 := lower_dimension 1 c1 (vertex (cell_at (triangulation c1) e.1.1) e.1.2) in
    lower_dimension 1 c2 (vertex (cell_at (triangulation c2) e.1.1) e.2)
  else c.

(** One round of the loop "tag vertices"; the state is the complex and
    [corner_id]. *)
Definition tag_vertex (st : C3t3 * nat) (vit : Vertex_handle) : C3t3 * nat :=
  if Z.eqb (dimension_of st.1 vit) 0
     || Nat.ltb 2 (nb_incident_complex_edges vit st.1)
  then
    let corner_id := S st.2 in
    let c1 := add_to_complex_vertex st.1 vit corner_id in
    (lower_dimension 0 c1 vit, corner_id)
  else st.

(** The four loops. *)
Definition tag_cells (sel : CellSelector) (c : C3t3) : C3t3 * Subdomain_index :=
  fold_left (tag_cell sel) (finite_cells (triangulation c)) (c, 0%Z).

Definition tag_facets (c : C3t3) : C3t3 :=
  fold_left tag_facet (finite_facets (triangulation c)) c.

Definition tag_edges (ecmap : EdgeIsConstrainedMap) (c : C3t3) : C3t3 :=
  fold_left (tag_edge ecmap) (finite_edges (triangulation c)) c.

Definition tag_vertices (c : C3t3) : C3t3 * nat :=
  fold_left tag_vertex (finite_vertices (triangulation c)) (c, 0).

(** The two lines written to [std::cerr]. *)
Definition max_si_warning : list string :=
  ["Warning : Maximal subdomain index is 0";
   "          Remeshing is likely to fail."].

(** [init_c3t3(ecmap)]: the new remesher and what was written to
    [std::cerr]. *)
Definition init_c3t3 (r : Adaptive_remesher) (ecmap : EdgeIsConstrainedMap)
    : Adaptive_remesher * list string :=
  let cells_done := tag_cells (m_cell_selector r) (m_c3t3 r) in
  let max_si := cells_done.2 in
  let imaginary_index := (max_si + 1)%Z in
  let cerr := if Z.eqb max_si 0 then max_si_warning else [] in
  let facets_done := tag_facets cells_done.1 in
  let edges_done := tag_edges ecmap facets_done in
  let vertices_done := tag_vertices edges_done in
  (mkAdaptive_remesher (m_sizing r) (m_protect_boundaries r) vertices_done.1
                       (m_cell_selector r) imaginary_index,
   cerr).

(** *** The constructor and finalize *)

(** [Adaptive_remesher(tr, sizing, protect_boundaries, ecmap,
    cell_selector)], given the caller's triangulation: the store after
    construction and what was written to [std::cerr].  [m_imaginary_index]
    has no initializer; it holds 0 until [init_c3t3] assigns it. *)
Definition Adaptive_remesher_new (caller_tr : Triangulation)
    (sizing : SizingFunction) (protect_boundaries : bool)
    (ecmap : EdgeIsConstrainedMap) (cell_selector : CellSelector)
    : Store * list string :=
  let c0 := C3t3_default in
  let swapped := swap (triangulation c0) caller_tr in
  let r0 := mkAdaptive_remesher sizing protect_boundaries
              (with_triangulation c0 swapped.1) cell_selector 0%Z in
  let inited := init_c3t3 r0 ecmap in
  (mkStore swapped.2 inited.1, inited.2).

(** [finalize()]: [m_tr.swap(m_c3t3.triangulation())] *)
Definition finalize (s : Store) : Store :=
  let swapped := swap (m_tr s) (tr (this s)) in
  mkStore swapped.1 (with_c3t3 (this s) (with_triangulation (m_c3t3 (this s)) swapped.2)).

(** [triangulation()] and [imaginary_index()] *)
Definition get_triangulation (r : Adaptive_remesher) : Triangulation :=
  triangulation (m_c3t3 r).

Definition imaginary_index (r : Adaptive_remesher) : Subdomain_index :=
  m_imaginary_index r.

(** *** check_vertex_dimensions *)

Fixpoint check_vertex_dimensions_from (c : C3t3) (vits : list Vertex_handle) : bool :=
  match vits with
  | [] => true
  | vit :: rest =>
      if Z.ltb (dimension_of c vit) 0 || Z.ltb 3 (dimension_of c vit)
      then false
      else check_vertex_dimensions_from c rest
  end.

Definition check_vertex_dimensions (r : Adaptive_remesher) : bool :=
  check_vertex_dimensions_from (m_c3t3 r) (finite_vertices (tr r)).

(** *** resolution_reached, postprocess and the phases *)

Section Methods.
Variable ext : Collaborators.

(** The loop of [resolution_reached] from the edge [eit] on: the value
    returned and what was written to [std::cout]. *)
Fixpoint resolution_reached_from (r : Adaptive_remesher) (sqmin sqmax : FT)
    (eits : list Edge) : bool * list string :=
  match eits with
  | [] => (true, ["Resolution reached"])
  | eit :: rest =>
      let e := eit in
      if m_protect_boundaries r
         && (edge_is_in_complex (m_c3t3 r) e
             || is_boundary ext (m_c3t3 r) e (m_cell_selector r))
      then resolution_reached_from r sqmin sqmax rest
      else if is_imaginary ext e (m_c3t3 r) (m_imaginary_index r)
      then resolution_reached_from r sqmin sqmax rest
      else
        let sqlen := squared_length (tr r) e in
        if FT_lt sqlen sqmin || FT_lt sqmax sqlen
        then (false, [])
        else resolution_reached_from r sqmin sqmax rest
  end.

Definition resolution_reached (r : Adaptive_remesher) : bool * list string :=
  let target_edge_length := m_sizing r ORIGIN in
  let emax := (4 / 3 * target_edge_length)%Q in
  let emin := (4 / 5 * target_edge_length)%Q in
  let sqmax := (emax * emax)%Q in
  let sqmin := (emin * emin)%Q in
  resolution_reached_from r sqmin sqmax (finite_edges (tr r)).

(** [CGAL_assertion(cond)]: a failed assertion aborts the method, which
    then has no result. *)
Definition CGAL_assertion {T : Type} (cond : bool) (result : T) : option T :=
  if cond then Some result else None.

(** One round of the loop of [postprocess]: "unset imaginary cells". *)
Definition unset_imaginary_cell (imaginary : Subdomain_index) (c : C3t3)
    (cit : Cell_handle) : C3t3 :=
  if Z.eqb (subdomain_of c cit) imaginary
  then remove_from_complex_cell c cit
  else c.

Definition postprocess (r : Adaptive_remesher) : option Adaptive_remesher :=
  let c := fold_left (unset_imaginary_cell (m_imaginary_index r))
                     (finite_cells (tr r)) (m_c3t3 r) in
  CGAL_assertion (is_valid ext (triangulation c)) (with_c3t3 r c).

Definition preprocess (r : Adaptive_remesher) : option Adaptive_remesher :=
  let t := add_layer_of_imaginary_tets ext (tr r) (m_imaginary_index r) in
  let r1 := with_c3t3 r (with_triangulation (m_c3t3 r) t) in
  CGAL_assertion (is_valid ext (tr r1)) r1.

Definition split (r : Adaptive_remesher) : option Adaptive_remesher :=
  _ ← CGAL_assertion (check_vertex_dimensions r) tt;
  let target_edge_length := m_sizing r ORIGIN in
  let emax := (4 / 3 * target_edge_length)%Q in
  let r1 := with_c3t3 r (split_long_edges ext (m_c3t3 r) emax (m_protect_boundaries r)
                           (m_imaginary_index r) (m_cell_selector r)) in
  CGAL_assertion (is_valid ext (tr r1)) r1.

Definition collapse (r : Adaptive_remesher) : option Adaptive_remesher :=
  _ ← CGAL_assertion (check_vertex_dimensions r) tt;
  let target_edge_length := m_sizing r ORIGIN in
  let emin := (4 / 5 * target_edge_length)%Q in
  let emax := (4 / 3 * target_edge_length)%Q in
  let r1 := with_c3t3 r (collapse_short_edges ext (m_c3t3 r) emin emax
                           (m_protect_boundaries r) (m_imaginary_index r)
                           (m_cell_selector r)) in
  CGAL_assertion (is_valid ext (tr r1)) r1.

Definition flip (r : Adaptive_remesher) : option Adaptive_remesher :=
  let r1 := with_c3t3 r (flip_edges ext (m_c3t3 r) (m_imaginary_index r)
                           (m_protect_boundaries r) (m_cell_selector r)) in
  CGAL_assertion (is_valid ext (tr r1)) r1.

Definition smooth (r : Adaptive_remesher) : option Adaptive_remesher :=
  let r1 := with_c3t3 r (smooth_vertices_new ext (m_c3t3 r) (m_imaginary_index r)
                           (m_protect_boundaries r) (m_cell_selector r)) in
  CGAL_assertion (is_valid ext (tr r1)) r1.

(** The states in which the remesher can be between two phases: the one
    left by the constructor, and any state left by a phase that was
    started in such a state. *)
Inductive phase : Type := Preprocess | Split | Collapse | Flip | Smooth.

Definition run_phase (p : phase) (r : Adaptive_remesher) : option Adaptive_remesher :=
  match p with
  | Preprocess => preprocess r
  | Split => split r
  | Collapse => collapse r
  | Flip => flip r
  | Smooth => smooth r
  end.

Inductive reachable (r0 : Adaptive_remesher) : Adaptive_remesher -> Prop :=
| reachable_init : reachable r0 r0
| reachable_phase p r r' :
    reachable r0 r -> run_phase p r = Some r' -> reachable r0 r'.

End Methods.


(** ** Concrete inputs

    A triangulation of one tetrahedron: vertex 0 is the infinite vertex,
    vertices 1 to 4 are the corners of the unit tetrahedron, cell 0 is the
    finite cell and cells 1 to 4 are the infinite cells on its four
    facets.  No vertex is classified yet. *)

Module Examples.

Definition unclassified (x y z : Q) : Vertex := mkVertex (mkPoint x y z) (-1)%Z.

Definition one_tetrahedron (si : Subdomain_index) : Triangulation :=
  mkTriangulation
    [ unclassified 0 0 0;
      unclassified 0 0 0; unclassified 1 0 0; unclassified 0 1 0; unclassified 0 0 1 ]
    [ mkCell 1 2 3 4  1 2 3 4  si;
      mkCell 0 2 3 4  0 2 3 4  0%Z;
      mkCell 1 0 3 4  1 0 3 4  0%Z;
      mkCell 1 2 0 4  1 2 0 4  0%Z;
      mkCell 1 2 3 0  1 2 3 0  0%Z ]
    0
    [ (0, 0); (0, 1); (0, 2); (0, 3);
      (1, 1); (1, 2); (1, 3); (2, 2); (2, 3); (3, 3) ]
    [ (0, 0, 1); (0, 0, 2); (0, 0, 3); (0, 1, 2); (0, 1, 3); (0, 2, 3);
      (1, 0, 1); (1, 0, 2); (1, 0, 3); (2, 0, 1) ].

Definition single_tetrahedron : Triangulation := one_tetrahedron 1%Z.

Definition select_all : CellSelector := fun _ _ => true.
Definition select_none : CellSelector := fun _ _ => false.
Definition constrain_all : EdgeIsConstrainedMap := fun _ => true.
Definition unit_sizing : SizingFunction := fun _ => 1%Q.

(** Modelled from the spec: [is_boundary(c3t3, e, cell_selector)].  An
    edge is on the boundary when it lies on a complex facet. *)
Definition is_boundary_on_complex_facet (c : C3t3) (e : Edge) (_ : CellSelector) : bool :=
  let t := triangulation c in
  existsb
    (fun f : Facet =>
       let vs := [facet_vertex t f 0; facet_vertex t f 1; facet_vertex t f 2] in
       existsb (Nat.eqb (edge_source t e)) vs && existsb (Nat.eqb (edge_target t e)) vs)
    (elements (facets_ c)).

(** Modelled from the spec: [is_imaginary(e, c3t3, imaginary_index)].
    An edge is imaginary when it lies between imaginary cells only. *)
Definition is_imaginary_between_imaginary_cells (e : Edge) (c : C3t3)
    (imaginary : Subdomain_index) : bool :=
  forallb (fun ch => Z.eqb (subdomain_of c ch) imaginary)
          (incident_cells (triangulation c) e).

(** Collaborators whose operators reject every local operation, so that
    each phase leaves the complex as it is, and whose triangulation audit
    accepts. *)
Definition idle : Collaborators :=
  mkCollaborators
    (fun _ => true)
    (fun t _ => t)
    (fun c _ _ _ _ => c)
    (fun c _ _ _ _ _ => c)
    (fun c _ _ _ => c)
    (fun c _ _ _ => c)
    is_boundary_on_complex_facet
    is_imaginary_between_imaginary_cells.

End Examples.

(** * Vocabulary of the statements

    The predicates and the closed forms of the loops that the theorems
    of the second part are stated with.  Nothing here adds to the
    embedding: each definition is a name for a term over it. *)

(** The dimension of the vertex behind a handle, if there is one. *)
Definition dim (c : C3t3) (v : Vertex_handle) : option Z :=
  in_dimension <$> (vertices (triangulation c) !! v).

(** Every vertex behind [w] has a dimension in [P]. *)
Definition dim_sat (P : Z -> Prop) (c : C3t3) (w : Vertex_handle) : Prop :=
  forall x, dim c w = Some x -> P x.

(** The dimension of one vertex goes through [f]. *)
Definition map_dimension (f : Z -> Z) (v : Vertex_handle) (c : C3t3) : C3t3 :=
  let t := triangulation c in
  with_triangulation c
    (mkTriangulation
       (alter (fun x => mkVertex (point x) (f (in_dimension x))) v (vertices t))
       (cells t) (infinite_vertex t) (tds_facets t) (tds_edges t)).

(** What the four loops do to a dimension. *)
Definition classify3 (x : Z) : Z := if Z.eqb x (-1) then 3%Z else x.

Definition lower (d x : Z) : Z := if Z.eqb x (-1) || Z.ltb d x then d else x.

(** The dimensions of every vertex before and after are related by [R]. *)
Definition dims_related (R : Z -> Z -> Prop) (c c' : C3t3) : Prop :=
  forall w, option_Forall2 R (dim c w) (dim c' w).

(** A predicate on dimensions that updates keep. *)
Definition keeps (P : Z -> Prop) (x x' : Z) : Prop := P x -> P x'.

(** The triangulation without its vertex dimensions. *)
Definition mesh_part (t : Triangulation) : Triangulation :=
  mkTriangulation ((fun x => mkVertex (point x) 0%Z) <$> vertices t)
                  (cells t) (infinite_vertex t) (tds_facets t) (tds_edges t).

Definition same_mesh (c c' : C3t3) : Prop :=
  mesh_part (triangulation c) = mesh_part (triangulation c').

(** The test of the loop "tag facets" and of the loop "tag edges". *)
Definition facet_differs (t : Triangulation) (f : Facet) : bool :=
  negb (Z.eqb (subdomain_index (cell_at t f.1))
              (subdomain_index (cell_at t (mirror_facet t f).1))).

Definition edge_is_feature (ecmap : EdgeIsConstrainedMap) (t : Triangulation)
    (e : Edge) : bool :=
  ecmap (make_vertex_pair t e) || Nat.ltb 2 (nb_subdomains_around t e).

(** The test of the loop "tag vertices". *)
Definition vertex_is_corner (c : C3t3) (v : Vertex_handle) : bool :=
  Z.eqb (dimension_of c v) 0 || Nat.ltb 2 (nb_incident_complex_edges v c).

(** Loops that only touch vertex dimensions and the marks of the
    complex: the mesh is the same and dimensions are related by [R]. *)
Definition dims_only (R : Z -> Z -> Prop) (c c' : C3t3) : Prop :=
  same_mesh c c' /\ dims_related R c c'.

(** The relation that allows every change of a dimension. *)
Definition any_change (x x' : Z) : Prop := True.

(** The vertex [v] belongs to one of the cells [l]. *)
Definition in_some_cell (t : Triangulation) (l : list Cell_handle) (v : Vertex_handle) : bool :=
  existsb (fun cit => has_vertex (cell_at t cit) v) l.

(** What "tag cells" does to the vertex [x] behind [v]. *)
Definition classified_in (t : Triangulation) (l : list Cell_handle)
    (v : Vertex_handle) (x : Vertex) : Vertex :=
  if Z.eqb (in_dimension x) (-1) && in_some_cell t l v
  then mkVertex (point x) 3
  else x.




(** The complex after each of the four loops. *)
Definition after_cells (r : Adaptive_remesher) : C3t3 :=
  (tag_cells (m_cell_selector r) (m_c3t3 r)).1.

Definition after_facets (r : Adaptive_remesher) : C3t3 :=
  tag_facets (after_cells r).

Definition after_edges (r : Adaptive_remesher) (ecmap : EdgeIsConstrainedMap) : C3t3 :=
  tag_edges ecmap (after_facets r).

Definition after_init (r : Adaptive_remesher) (ecmap : EdgeIsConstrainedMap) : C3t3 :=
  m_c3t3 (init_c3t3 r ecmap).1.

(** The remesher on which the constructor calls [init_c3t3]. *)
Definition fresh_remesher (t : Triangulation) (sizing : SizingFunction)
    (protect_boundaries : bool) (sel : CellSelector) : Adaptive_remesher :=
  mkAdaptive_remesher sizing protect_boundaries
    (with_triangulation C3t3_default t) sel 0%Z.

(** The statement that "tag cells" classifies the vertices of the cells
    that the selector accepts, and only those. *)
Definition classifies_vertices_of_selected_cells_only (sel : CellSelector)
    (c : C3t3) : Prop :=
  let t := triangulation c in
  forall v x,
    vertices t !! v = Some x ->
    in_dimension x = (-1)%Z ->
    (dimension_of (tag_cells sel c).1 v = 3%Z
     <-> exists cit, In cit (finite_cells t)
                     /\ sel cit (cell_at t cit) = true
                     /\ has_vertex (cell_at t cit) v = true).



(** A dimension that is classified is not raised. *)
Definition not_raised (x x' : Z) : Prop := (0 <= x -> 0 <= x' <= x)%Z.

(** The statement that the complex edges are the edges that the map
    declares constrained together with the finite edges with more than
    two incident subdomains. *)
Definition complex_edges_as_stated (ecmap : EdgeIsConstrainedMap)
    (t : Triangulation) (c : C3t3) : Prop :=
  edges_ c
  = list_to_set (make_vertex_pair t
                 <$> List.filter (fun e => ecmap (make_vertex_pair t e)) (tds_edges t))
    ∪ list_to_set (make_vertex_pair t
                   <$> List.filter (fun e => Nat.ltb 2 (nb_subdomains_around t e))
                         (finite_edges t)).

(** The data model of vertex dimensions: -1, 0, 1, 2 or 3. *)
Definition dimensions_well_formed (t : Triangulation) : Prop :=
  forall v x, vertices t !! v = Some x -> (-1 <= in_dimension x <= 3)%Z.

(** In a triangulation of dimension 3 every finite vertex is a vertex of
    some finite cell. *)
Definition finite_vertices_covered (t : Triangulation) : Prop :=
  forall v, In v (finite_vertices t) -> in_some_cell t (finite_cells t) v = true.

(** Every finite vertex is classified: what [check_vertex_dimensions]
    tests. *)
Definition dimensions_classified (c : C3t3) : Prop :=
  forall v, In v (finite_vertices (triangulation c)) ->
            (0 <= dimension_of c v <= 3)%Z.

(** The operators of the phases keep every finite vertex classified, as
    the invariants of the mesh model require of each operator. *)
Definition operators_keep_dimensions (ext : Collaborators) : Prop :=
  (forall c i,
      dimensions_classified c ->
      dimensions_classified
        (with_triangulation c (add_layer_of_imaginary_tets ext (triangulation c) i)))
  /\ (forall c emax p i sel,
        dimensions_classified c ->
        dimensions_classified (split_long_edges ext c emax p i sel))
  /\ (forall c emin emax p i sel,
        dimensions_classified c ->
        dimensions_classified (collapse_short_edges ext c emin emax p i sel))
  /\ (forall c i p sel,
        dimensions_classified c -> dimensions_classified (flip_edges ext c i p sel))
  /\ (forall c i p sel,
        dimensions_classified c ->
        dimensions_classified (smooth_vertices_new ext c i p sel)).

(** A dimension is 0 afterwards exactly when it was 0 before. *)
Definition zero_iff (x x' : Z) : Prop := x = 0%Z <-> x' = 0%Z.

(** The bounds of [resolution_reached]. *)
Definition emin (r : Adaptive_remesher) : FT := (4 / 5 * m_sizing r ORIGIN)%Q.

Definition emax (r : Adaptive_remesher) : FT := (4 / 3 * m_sizing r ORIGIN)%Q.

Definition length_in_range (r : Adaptive_remesher) (e : Edge) : Prop :=
  (emin r * emin r <= squared_length (tr r) e)%Q
  /\ (squared_length (tr r) e <= emax r * emax r)%Q.

(** The statement that the criterion leaves complex and boundary edges
    out whatever the flag. *)
Definition resolution_criterion_as_stated (ext : Collaborators)
    (r : Adaptive_remesher) : Prop :=
  forall e : Edge,
    In e (finite_edges (tr r)) ->
    edge_is_in_complex (m_c3t3 r) e = false ->
    is_boundary ext (m_c3t3 r) e (m_cell_selector r) = false ->
    is_imaginary ext e (m_c3t3 r) (m_imaginary_index r) = false ->
    length_in_range r e.

(** The edges that the loop of [resolution_reached] measures. *)
Definition edge_is_measured (ext : Collaborators) (r : Adaptive_remesher)
    (e : Edge) : bool :=
  negb (m_protect_boundaries r
        && (edge_is_in_complex (m_c3t3 r) e
            || is_boundary ext (m_c3t3 r) e (m_cell_selector r)))
  && negb (is_imaginary ext e (m_c3t3 r) (m_imaginary_index r)).

(** What [remove_from_complex] makes of a cell. *)
Definition reset_cell (x : Cell) : Cell :=
  mkCell (V0 x) (V1 x) (V2 x) (V3 x) (N0 x) (N1 x) (N2 x) (N3 x) NONE.

(** What one round of [postprocess] makes of the cell it visits. *)
Definition unset_cell (imaginary : Subdomain_index) (x : Cell) : Cell :=
  if Z.eqb (subdomain_index x) imaginary then reset_cell x else x.

(** The complex after the loop of [postprocess]. *)
Definition unset_imaginary_cells (r : Adaptive_remesher) : C3t3 :=
  fold_left (unset_imaginary_cell (m_imaginary_index r))
            (finite_cells (tr r)) (m_c3t3 r).

(** The statement that [postprocess] leaves the subdomain indices as they
    are. *)
Definition postprocess_keeps_subdomain_indices (ext : Collaborators)
    (r : Adaptive_remesher) : Prop :=
  forall r', postprocess ext r = Some r' ->
             forall ch, subdomain_of (m_c3t3 r') ch = subdomain_of (m_c3t3 r) ch.

(** The corners are numbered from 1 on, with distinct numbers. *)
Definition corners_numbered (k : nat) (K : gmap Vertex_handle nat) : Prop :=
  size K = k
  /\ (forall v id, K !! v = Some id -> 1 <= id <= k)
  /\ (forall v w id, K !! v = Some id -> K !! w = Some id -> v = w).

(** The remesher with another value of [m_protect_boundaries]. *)
Definition with_protect_boundaries (r : Adaptive_remesher) (b : bool) : Adaptive_remesher :=
  mkAdaptive_remesher (m_sizing r) b (m_c3t3 r) (m_cell_selector r) (m_imaginary_index r).

(* ===================================================================== *)
(** * Part II: properties                                                 *)
(* ===================================================================== *)

(** ** The iterators in finite mode *)

Module Triangulation_iterators_3_facts.
Import Triangulation_iterators_3.

Section Iterator_facts.
Context {A : Type}.
Variable is_infinite : A -> bool.

Lemma skip_guarded_split (ib : list A) :
  exists skipped,
    ib = skipped ++ skip_guarded is_infinite ib
    /\ Forall (fun a => is_infinite a = true) skipped
    /\ at_finite_or_end is_infinite (skip_guarded is_infinite ib).
Proof.
  induction ib as [|a r IH]; simpl.
  - exists []. repeat split; constructor.
  - destruct (is_infinite a) eqn:Ha.
    + destruct IH as (sk & Heq & Hall & Hhd).
      exists (a :: sk). repeat split; [simpl; congruence | by constructor | done].
    + exists []. repeat split; [constructor | simpl; done].
Qed.

Lemma skip_guarded_finite_elements (ib : list A) :
  finite_elements is_infinite (skip_guarded is_infinite ib)
  = finite_elements is_infinite ib.
Proof.
  induction ib as [|a r IH]; simpl; [done|].
  destruct (is_infinite a) eqn:Ha; simpl; [done|].
  by rewrite Ha.
Qed.

Lemma skip_guarded_length (ib : list A) :
  length (skip_guarded is_infinite ib) <= length ib.
Proof.
  induction ib as [|a r IH]; simpl; [lia|].
  destruct (is_infinite a); simpl; lia.
Qed.

Lemma skip_unguarded_guarded (ib ib' : list A) :
  skip_unguarded is_infinite ib = Some ib' ->
  ib' = skip_guarded is_infinite ib /\ ib' <> [].
Proof.
  induction ib as [|a r IH]; simpl; [done|].
  destruct (is_infinite a); [done|].
  intros [= <-]. done.
Qed.

Lemma skip_unguarded_is_Some (ib : list A) :
  (exists a, In a ib /\ is_infinite a = false) ->
  is_Some (skip_unguarded is_infinite ib).
Proof.
  induction ib as [|a r IH]; simpl.
  - intros (? & [] & _).
  - intros (b & [-> | Hin] & Hb).
    + rewrite Hb. by eexists.
    + destruct (is_infinite a); [|by eexists]. apply IH. eauto.
Qed.

Lemma finite_elements_all_finite (l : list A) :
  Forall (fun a => is_infinite a = false) (finite_elements is_infinite l).
Proof.
  apply List.Forall_forall. intros a Ha.
  apply List.filter_In in Ha as [_ Ha]. by destruct (is_infinite a).
Qed.

(** A traversal with [incr] from a position whose head is finite runs
    through the finite elements that remain. *)
Lemma traverse_incr (n : nat) (ib : list A) :
  length ib <= n ->
  at_finite_or_end is_infinite ib ->
  traverse (incr is_infinite) n (mkIterator ib false)
  = finite_elements is_infinite ib.
Proof.
  revert ib. induction n as [|n IH]; intros ib Hlen Hhd.
  - destruct ib; [done | simpl in Hlen; lia].
  - destruct ib as [|a r]; [done|].
    simpl in Hhd. cbn. rewrite Hhd. cbn. f_equal.
    unfold incr; cbn.
    rewrite IH.
    + apply skip_guarded_finite_elements.
    + pose proof (skip_guarded_length r). simpl in Hlen. lia.
    + by destruct (skip_guarded_split r) as (? & _ & _ & ?).
Qed.

(** With at most one infinite element in the whole sequence, a position
    reached by the vertex iterator has none left behind an infinite head. *)
Lemma nb_infinite_cons (a : A) (r : list A) :
  nb_infinite is_infinite (a :: r)
  = (if is_infinite a then 1 else 0) + nb_infinite is_infinite r.
Proof. unfold nb_infinite; simpl. by destruct (is_infinite a). Qed.

Lemma nb_infinite_0 (l : list A) :
  nb_infinite is_infinite l = 0 ->
  finite_elements is_infinite l = l.
Proof.
  induction l as [|a r IH]; [done|].
  rewrite nb_infinite_cons. unfold finite_elements in *; simpl.
  destruct (is_infinite a); simpl; [lia|]. intros H. f_equal. by apply IH.
Qed.

Lemma traverse_vertex_incr (n : nat) (ib : list A) :
  length ib <= n ->
  at_finite_or_end is_infinite ib ->
  nb_infinite is_infinite ib <= 1 ->
  traverse (vertex_incr is_infinite) n (mkIterator ib false)
  = finite_elements is_infinite ib.
Proof.
  revert ib. induction n as [|n IH]; intros ib Hlen Hhd Hnb.
  - destruct ib; [done | simpl in Hlen; lia].
  - destruct ib as [|a r]; [done|].
    simpl in Hhd. cbn. rewrite Hhd. cbn. f_equal.
    rewrite nb_infinite_cons, Hhd in Hnb. simpl in Hlen, Hnb.
    unfold vertex_incr, vertex_is_infinite_at; cbn.
    destruct r as [|b r']; cbn.
    + destruct n; done.
    + rewrite nb_infinite_cons in Hnb.
      destruct (is_infinite b) eqn:Hb; cbn.
      * rewrite IH; [done | simpl in Hlen; lia | | lia].
        destruct r' as [|c r'']; [done|]. simpl.
        rewrite nb_infinite_cons in Hnb. destruct (is_infinite c); [lia | done].
      * rewrite IH; [by cbn; rewrite Hb | simpl in *; lia | done |].
        rewrite nb_infinite_cons, Hb. lia.
Qed.

End Iterator_facts.

(** C10.  In a triangulation with at most one infinite vertex, the
    iterators built in finite mode ([_inf = false]) never yield an
    infinite element.  For the cell, edge and facet iterators (one code,
    element type [E]): an advance skips a run of infinite elements and
    stops on a finite element or past the end; started by the constructor
    they yield exactly the finite elements, and the constructor returns
    as soon as the sequence has a finite element.  For the vertex
    iterator: an advance skips at most one vertex, and under the
    hypothesis the iterator yields exactly the finite vertices. *)
Theorem finite_iterators_yield_finite_elements
    {V E : Type} (is_infinite_v : V -> bool) (is_infinite_e : E -> bool)
    (vs : list V) (es : list E)
    (Hone : nb_infinite is_infinite_v vs <= 1) :
  (forall it : Iterator, _inf it = false ->
     exists skipped,
       ib_incr (_ib it) = skipped ++ _ib (incr is_infinite_e it)
       /\ Forall (fun a => is_infinite_e a = true) skipped
       /\ (deref (incr is_infinite_e it) = None
           \/ exists a, deref (incr is_infinite_e it) = Some a
                        /\ is_infinite_e a = false))
  /\ (forall it : Iterator, iterator_begin is_infinite_e es false = Some it ->
        yielded (incr is_infinite_e) it = finite_elements is_infinite_e es
        /\ Forall (fun a => is_infinite_e a = false) (yielded (incr is_infinite_e) it))
  /\ ((exists a, In a es /\ is_infinite_e a = false) ->
        is_Some (iterator_begin is_infinite_e es false))
  /\ (forall it : Iterator, _inf it = false ->
        exists skipped,
          ib_incr (_ib it) = skipped ++ _ib (vertex_incr is_infinite_v it)
          /\ length skipped <= 1)
  /\ yielded (vertex_incr is_infinite_v) (vertex_iterator_begin is_infinite_v vs false)
     = finite_elements is_infinite_v vs
  /\ Forall (fun a => is_infinite_v a = false)
       (yielded (vertex_incr is_infinite_v) (vertex_iterator_begin is_infinite_v vs false)).
Proof.
  assert (Hv : yielded (vertex_incr is_infinite_v)
                 (vertex_iterator_begin is_infinite_v vs false)
               = finite_elements is_infinite_v vs).
  { destruct vs as [|a r]; [done|].
    change (vertex_iterator_begin is_infinite_v (a :: r) false)
      with (if is_infinite_v a then mkIterator r false else mkIterator (a :: r) false).
    rewrite nb_infinite_cons in Hone.
    destruct (is_infinite_v a) eqn:Ha; unfold yielded; simpl _ib.
    - rewrite traverse_vertex_incr; [ | done | | lia].
      + unfold finite_elements; simpl. by rewrite Ha.
      + destruct r as [|b r']; [done|]. simpl.
        rewrite nb_infinite_cons in Hone. destruct (is_infinite_v b); [lia | done].
    - apply traverse_vertex_incr; [done | done |].
      rewrite nb_infinite_cons, Ha. lia. }
  split; [|split; [|split; [|split; [|split]]]].
  - intros [ib inf] Hinf. simpl in Hinf. subst inf. unfold incr; cbn.
    destruct (skip_guarded_split is_infinite_e (ib_incr ib)) as (sk & Heq & Hall & Hhd).
    exists sk. split; [done|]. split; [done|].
    unfold deref, ib_deref.
    destruct (skip_guarded is_infinite_e (ib_incr ib)) as [|a r]; [by left|].
    right. exists a. done.
  - intros it Hbegin. unfold iterator_begin in Hbegin. cbn in Hbegin.
    destruct (skip_unguarded is_infinite_e es) as [ib|] eqn:Hskip; [|done].
    cbn in Hbegin. injection Hbegin as <-.
    destruct (skip_unguarded_guarded _ _ _ Hskip) as [-> _].
    assert (Heq : yielded (incr is_infinite_e)
                    (mkIterator (skip_guarded is_infinite_e es) false)
                  = finite_elements is_infinite_e es).
    { unfold yielded; cbn. rewrite traverse_incr.
      - apply skip_guarded_finite_elements.
      - done.
      - by destruct (skip_guarded_split is_infinite_e es) as (? & _ & _ & ?). }
    split; [done|]. rewrite Heq. apply finite_elements_all_finite.
  - intros Hex. unfold iterator_begin; cbn.
    destruct (skip_unguarded_is_Some is_infinite_e es Hex) as [ib ->]. by eexists.
  - intros [ib inf] Hinf. simpl in Hinf. subst inf.
    unfold vertex_incr, vertex_is_infinite_at; cbn.
    destruct (ib_incr ib) as [|b r]; cbn.
    + exists []. split; [done | simpl; lia].
    + destruct (is_infinite_v b); cbn.
      * exists [b]. split; [done | simpl; lia].
      * exists []. split; [done | simpl; lia].
  - done.
  - rewrite Hv. apply finite_elements_all_finite.
Qed.

(** Two infinite vertices in a row: the vertex iterator yields the second
    one, which the looping iterators skip. *)
Lemma vertex_iterator_two_infinite :
  let is_infinite := fun v : nat => Nat.eqb v 0 || Nat.eqb v 1 in
  yielded (vertex_incr is_infinite) (vertex_iterator_begin is_infinite [0; 1; 2] false)
  = [1; 2]
  /\ (yielded (incr is_infinite) <$> iterator_begin is_infinite [0; 1; 2] false)
     = Some [2].
Proof. split; reflexivity. Qed.

(** *** Further properties of the iterators *)

Section Iterator_more.
Context {A : Type}.
Variable is_infinite : A -> bool.

Lemma traverse_all_incr (n : nat) (ib : list A) :
  length ib <= n ->
  traverse (incr is_infinite) n (mkIterator ib true) = ib.
Proof.
  revert ib. induction n as [|n IH]; intros ib Hlen.
  - destruct ib; [done | simpl in Hlen; lia].
  - destruct ib as [|a r]; [done|]. cbn. f_equal.
    apply IH. simpl in Hlen. lia.
Qed.

Lemma traverse_all_vertex_incr (n : nat) (ib : list A) :
  length ib <= n ->
  traverse (vertex_incr is_infinite) n (mkIterator ib true) = ib.
Proof.
  revert ib. induction n as [|n IH]; intros ib Hlen.
  - destruct ib; [done | simpl in Hlen; lia].
  - destruct ib as [|a r]; [done|]. cbn. f_equal.
    apply IH. simpl in Hlen. lia.
Qed.

(** Built with [inf = true], the iterators yield every element of the
    sequence, the infinite ones included, in order. *)
Theorem all_mode_iterators_yield_everything (tds : list A) :
  (exists it, iterator_begin is_infinite tds true = Some it
              /\ yielded (incr is_infinite) it = tds)
  /\ yielded (vertex_incr is_infinite) (vertex_iterator_begin is_infinite tds true) = tds.
Proof.
  split.
  - exists (mkIterator tds true). split; [done|].
    by apply traverse_all_incr.
  - by apply traverse_all_vertex_incr.
Qed.

(** The constructor of a cell, edge or facet iterator in finite mode has
    no result exactly when the sequence has no finite element (it is
    empty or all its elements are infinite): its loop then runs past the
    end. *)
Theorem finite_begin_runs_off_the_end (tds : list A) :
  iterator_begin is_infinite tds false = None
  <-> Forall (fun a => is_infinite a = true) tds.
Proof.
  unfold iterator_begin. cbn [negb].
  induction tds as [|a r IH]; cbn.
  - split; [constructor | done].
  - destruct (is_infinite a) eqn:Ha.
    + rewrite IH. split; [by constructor|]. by inversion 1.
    + cbn. split; [done|]. inversion 1. congruence.
Qed.


Lemma traverse_vertex_incr_separated (n : nat) (ib : list A) :
  length ib <= n ->
  at_finite_or_end is_infinite ib ->
  adjacent_infinite is_infinite ib = false ->
  traverse (vertex_incr is_infinite) n (mkIterator ib false)
  = finite_elements is_infinite ib.
Proof.
  revert ib. induction n as [|n IH]; intros ib Hlen Hhd Hadj.
  - destruct ib; [done | simpl in Hlen; lia].
  - destruct ib as [|a r]; [done|].
    cbn in Hhd. cbn. rewrite Hhd. cbn. f_equal.
    unfold vertex_incr, vertex_is_infinite_at; cbn.
    destruct r as [|b r']; cbn.
    + destruct n; done.
    + cbn in Hadj. rewrite Hhd in Hadj. cbn in Hadj.
      destruct (is_infinite b) eqn:Hb; cbn.
      * destruct r' as [|c r'']; [destruct n; done|].
        cbn in Hadj. apply orb_false_iff in Hadj as [Hc Hadj].
        rewrite IH; [done | simpl in *; lia | exact Hc | exact Hadj].
      * rewrite IH; [by cbn; rewrite Hb | simpl in *; lia | exact Hb |].
        cbn. rewrite Hb. exact Hadj.
Qed.

Lemma traverse_vertex_incr_adjacent (n : nat) (ib : list A) :
  length ib <= n ->
  adjacent_infinite is_infinite ib = true
  \/ (exists a r, ib = a :: r /\ is_infinite a = true) ->
  Exists (fun a => is_infinite a = true)
         (traverse (vertex_incr is_infinite) n (mkIterator ib false)).
Proof.
  revert ib. induction n as [|n IH]; intros ib Hlen H.
  - destruct ib; [|simpl in Hlen; lia].
    destruct H as [H | (a & r & H & _)]; done.
  - destruct ib as [|a r]; [destruct H as [H | (? & ? & H & _)]; done|].
    cbn [traverse iterator_eq iterator_end _ib ib_is_end orb length Nat.eqb andb
         deref ib_deref head].
    destruct (is_infinite a) eqn:Ha; [by apply Exists_cons_hd|].
    destruct H as [Hadj | (a' & r0 & [= <- <-] & Ha')]; [|congruence].
    apply Exists_cons_tl.
    destruct r as [|b r']; [done|].
    cbn [adjacent_infinite] in Hadj. rewrite Ha in Hadj. cbn [andb orb] in Hadj.
    unfold vertex_incr, vertex_is_infinite_at.
    cbn [_inf _ib ib_incr tail ib_deref head].
    destruct (is_infinite b) eqn:Hb.
    + apply IH; [simpl in *; lia|].
      destruct r' as [|c r'']; [done|].
      cbn [andb] in Hadj.
      destruct (is_infinite c) eqn:Hc; [right; by exists c, r''|].
      left. exact Hadj.
    + apply IH; [simpl in *; lia|]. left.
      cbn [adjacent_infinite]. rewrite Hb. exact Hadj.
Qed.

(** The vertex iterator in finite mode, which skips at most one vertex
    per advance: it yields exactly the finite vertices when no two
    infinite vertices follow each other in the sequence, and it yields an
    infinite vertex when two do. *)
Theorem vertex_iterator_needs_separated_infinite (tds : list A) :
  let ys := yielded (vertex_incr is_infinite)
              (vertex_iterator_begin is_infinite tds false) in
  (adjacent_infinite is_infinite tds = false -> ys = finite_elements is_infinite tds)
  /\ (adjacent_infinite is_infinite tds = true ->
      Exists (fun a => is_infinite a = true) ys).
Proof.
  cbv zeta. destruct tds as [|a r]; [by split|].
  change (vertex_iterator_begin is_infinite (a :: r) false)
    with (if is_infinite a then mkIterator r false else mkIterator (a :: r) false).
  destruct (is_infinite a) eqn:Ha; unfold yielded; cbn [_ib]; split; intros Hadj.
  - destruct r as [|b r']; [by cbn; rewrite Ha|].
    cbn [adjacent_infinite] in Hadj. rewrite Ha in Hadj. cbn [andb] in Hadj.
    apply orb_false_iff in Hadj as [Hb Hadj].
    rewrite traverse_vertex_incr_separated; [ | done | exact Hb | exact Hadj].
    unfold finite_elements. cbn [List.filter]. by rewrite Ha.
  - apply traverse_vertex_incr_adjacent; [done|].
    destruct r as [|b r']; [done|].
    cbn [adjacent_infinite] in Hadj. rewrite Ha in Hadj. cbn [andb] in Hadj.
    destruct (is_infinite b) eqn:Hb; [right; by exists b, r' | left].
    cbn [orb] in Hadj. cbn [adjacent_infinite]. rewrite Hb. exact Hadj.
  - apply traverse_vertex_incr_separated; [done | exact Ha | exact Hadj].
  - apply traverse_vertex_incr_adjacent; [done | by left].
Qed.

End Iterator_more.

Lemma vertex_iterator_needs_separated_infinite_witness :
  adjacent_infinite (Nat.eqb 0) [1; 0; 2; 3] = false
  /\ yielded (vertex_incr (Nat.eqb 0)) (vertex_iterator_begin (Nat.eqb 0) [1; 0; 2; 3] false)
     = [1; 2; 3].
Proof.
  split; [reflexivity|].
  exact (proj1 (vertex_iterator_needs_separated_infinite (Nat.eqb 0) [1; 0; 2; 3]) eq_refl).
Defined.

(** The theorem on the vertices and the edges of a triangulation of one
    tetrahedron (vertex 0 is the infinite vertex). *)
Lemma finite_iterators_yield_finite_elements_witness :
  nb_infinite (Nat.eqb 0) [0; 1; 2; 3; 4] <= 1
  /\ yielded (vertex_incr (Nat.eqb 0)) (vertex_iterator_begin (Nat.eqb 0) [0; 1; 2; 3; 4] false)
     = [1; 2; 3; 4]
  /\ (forall it : Iterator,
        iterator_begin (fun e : nat * nat => Nat.eqb 0 e.1) [(0, 1); (1, 2); (0, 2); (2, 3)] false
        = Some it ->
        yielded (incr (fun e : nat * nat => Nat.eqb 0 e.1)) it = [(1, 2); (2, 3)]).
Proof.
  assert (H : nb_infinite (Nat.eqb 0) [0; 1; 2; 3; 4] <= 1) by (vm_compute; lia).
  split; [exact H|].
  pose proof (finite_iterators_yield_finite_elements (Nat.eqb 0)
                (fun e : nat * nat => Nat.eqb 0 e.1)
                [0; 1; 2; 3; 4] [(0, 1); (1, 2); (0, 2); (2, 3)] H)
    as (_ & Hloop & _ & _ & Hv & _).
  split; [exact Hv|].
  intros it Hit. exact (proj1 (Hloop it Hit)).
Defined.

End Triangulation_iterators_3_facts.

(** ** Loops as folds: two proof rules *)

Section Fold_rules.
Context {S A : Type} (step : S -> A -> S).

(** A property that every round keeps holds after the loop. *)
Lemma fold_left_invariant (I : S -> Prop) (l : list A) (s : S) :
  I s ->
  (forall s' a, In a l -> I s' -> I (step s' a)) ->
  I (fold_left step l s).
Proof.
  revert s. induction l as [|a l IH]; intros s Hs Hstep; simpl; [done|].
  apply IH.
  - apply Hstep; [by left | done].
  - intros s' b Hb. apply Hstep. by right.
Qed.

(** A property that the round of [a] sets up and that every round keeps
    holds after the loop, when [a] is visited. *)
Lemma fold_left_establish (J I : S -> Prop) (l : list A) (s : S) (a : A) :
  In a l ->
  J s ->
  (forall s' b, J s' -> J (step s' b)) ->
  (forall s', J s' -> I (step s' a)) ->
  (forall s' b, J s' -> I s' -> I (step s' b)) ->
  I (fold_left step l s).
Proof.
  intros Hin HJ HJstep Hset Hkeep.
  destruct (List.in_split _ _ Hin) as (l1 & l2 & ->).
  rewrite List.fold_left_app. simpl.
  assert (HJ1 : J (fold_left step l1 s)).
  { apply fold_left_invariant; [done | intros; by apply HJstep]. }
  assert (Hboth : J (fold_left step l2 (step (fold_left step l1 s) a))
                  /\ I (fold_left step l2 (step (fold_left step l1 s) a))).
  { apply (fold_left_invariant (fun s' => J s' /\ I s')).
    - split; [by apply HJstep | by apply Hset].
    - intros s' b _ [? ?]. split; [by apply HJstep | by apply Hkeep]. }
  apply Hboth.
Qed.

End Fold_rules.

(** ** Updates of a list at one position *)

Lemma alter_agree {A : Type} (g h : A -> A) (l : list A) (i : nat) :
  (forall x, l !! i = Some x -> g x = h x) ->
  alter g i l = alter h i l.
Proof.
  intros Hgh. apply list_eq. intros j. rewrite !list_lookup_alter.
  destruct (decide (i = j)) as [->|]; [|done].
  destruct (l !! j) as [x|] eqn:Hx; simpl; [|done]. f_equal. by apply Hgh.
Qed.

Lemma alter_fixed {A : Type} (h : A -> A) (l : list A) (i : nat) :
  (forall x, l !! i = Some x -> h x = x) ->
  alter h i l = l.
Proof.
  intros Hh. apply list_eq. intros j. rewrite list_lookup_alter.
  destruct (decide (i = j)) as [->|]; [|done].
  destruct (l !! j) as [x|] eqn:Hx; simpl; [|done]. f_equal. by apply Hh.
Qed.

(** ** Vertex dimensions *)

Lemma dimension_of_dim (c : C3t3) (v : Vertex_handle) :
  dimension_of c v = default (-1)%Z (dim c v).
Proof.
  unfold dimension_of, dim, vertex_at.
  by destruct (vertices (triangulation c) !! v).
Qed.

Lemma C3t3_eta (c : C3t3) :
  with_triangulation c
    (mkTriangulation (vertices (triangulation c)) (cells (triangulation c))
       (infinite_vertex (triangulation c)) (tds_facets (triangulation c))
       (tds_edges (triangulation c))) = c.
Proof. by destruct c as [[] ? ? ?]. Qed.

Lemma conditional_set_dimension (f : Z -> Z) (d : Z) (test : Z -> bool)
    (c : C3t3) (v : Vertex_handle) :
  (forall x, f x = if test x then d else x) ->
  (if test (dimension_of c v) then set_dimension c v d else c)
  = map_dimension f v c.
Proof.
  intros Hf. unfold set_dimension, map_dimension, dimension_of, vertex_at.
  destruct (test _) eqn:Htest.
  - f_equal. f_equal. apply alter_agree. intros x Hx.
    rewrite Hx in Htest. simpl in Htest. by rewrite Hf, Htest.
  - rewrite alter_fixed; [by rewrite C3t3_eta|].
    intros x Hx. rewrite Hx in Htest. simpl in Htest.
    rewrite Hf, Htest. by destruct x.
Qed.

Lemma tag_cell_vertex_map (cit : Cell_handle) (c : C3t3) (i : nat) :
  tag_cell_vertex cit c i
  = map_dimension classify3 (vertex (cell_at (triangulation c) cit) i) c.
Proof.
  unfold tag_cell_vertex.
  by apply (conditional_set_dimension classify3 3%Z (fun x => Z.eqb x (-1))).
Qed.

Lemma lower_dimension_map (d : Z) (c : C3t3) (v : Vertex_handle) :
  lower_dimension d c v = map_dimension (lower d) v c.
Proof.
  unfold lower_dimension.
  by apply (conditional_set_dimension (lower d) d
              (fun x => Z.eqb x (-1) || Z.ltb d x)).
Qed.

Lemma dim_map_dimension (f : Z -> Z) (v w : Vertex_handle) (c : C3t3) :
  dim (map_dimension f v c) w
  = if decide (v = w) then f <$> dim c w else dim c w.
Proof.
  unfold dim, map_dimension; simpl. rewrite list_lookup_alter.
  destruct (decide (v = w)) as [->|]; [|done].
  by destruct (vertices (triangulation c) !! w).
Qed.

(** *** Dimensions related before and after *)

Section Dims_related.
Context (R : Z -> Z -> Prop) `{!Reflexive R} `{!Transitive R}.

Lemma dims_related_refl (c : C3t3) : dims_related R c c.
Proof. intros w. destruct (dim c w); by constructor. Qed.

Lemma dims_related_trans (c1 c2 c3 : C3t3) :
  dims_related R c1 c2 -> dims_related R c2 c3 -> dims_related R c1 c3.
Proof.
  intros H12 H23 w. specialize (H12 w). specialize (H23 w).
  destruct H12; inversion H23; subst; constructor. by etrans.
Qed.

Lemma dims_related_same (c c' : C3t3) :
  (forall w, dim c' w = dim c w) -> dims_related R c c'.
Proof. intros H w. rewrite H. apply dims_related_refl. Qed.

Lemma dims_related_map (f : Z -> Z) (v : Vertex_handle) (c : C3t3) :
  (forall x, R x (f x)) -> dims_related R c (map_dimension f v c).
Proof.
  intros Hf w. rewrite dim_map_dimension.
  destruct (decide (v = w)); destruct (dim c w); simpl; by constructor.
Qed.

End Dims_related.

Global Instance keeps_refl (P : Z -> Prop) : Reflexive (keeps P).
Proof. intros x Hx. exact Hx. Qed.

Global Instance keeps_trans (P : Z -> Prop) : Transitive (keeps P).
Proof. intros x y z Hxy Hyz Hx. by apply Hyz, Hxy. Qed.

Lemma dim_sat_related (P : Z -> Prop) (c c' : C3t3) (w : Vertex_handle) :
  dims_related (keeps P) c c' -> dim_sat P c w -> dim_sat P c' w.
Proof.
  intros Hrel Hsat x' Hx'. specialize (Hrel w). rewrite Hx' in Hrel.
  inversion Hrel as [x ? HR Hx |]; subst. apply HR, Hsat. congruence.
Qed.

Lemma dim_sat_map_here (P : Z -> Prop) (f : Z -> Z) (v : Vertex_handle) (c : C3t3) :
  (forall x, P (f x)) -> dim_sat P (map_dimension f v c) v.
Proof.
  intros Hf x. rewrite dim_map_dimension. rewrite decide_True by done.
  destruct (dim c v); simpl; [|done]. intros [= <-]. apply Hf.
Qed.

Lemma dim_sat_map_keep (P : Z -> Prop) (f : Z -> Z) (v w : Vertex_handle) (c : C3t3) :
  (forall x, P x -> P (f x)) -> dim_sat P c w -> dim_sat P (map_dimension f v c) w.
Proof.
  intros Hf. apply dim_sat_related, dims_related_map; [apply _ | done].
Qed.

(** What the loops do to the predicates used below. *)
Lemma classify3_range (x : Z) : (-1 <= x <= 3 -> 0 <= classify3 x <= 3)%Z.
Proof. unfold classify3. destruct (Z.eqb_spec x (-1)); lia. Qed.

Lemma classify3_zero (x : Z) : classify3 x = 0%Z <-> x = 0%Z.
Proof. unfold classify3. destruct (Z.eqb_spec x (-1)); lia. Qed.

Lemma lower_le (d x : Z) : (lower d x <= d \/ lower d x = x /\ x <= d)%Z.
Proof.
  unfold lower. destruct (Z.eqb_spec x (-1)), (Z.ltb_spec d x); simpl; lia.
Qed.

Lemma lower_bound (d x : Z) : (lower d x <= d)%Z.
Proof. destruct (lower_le d x); lia. Qed.

Lemma lower_keeps_le (d k x : Z) : (d <= k -> x <= k -> lower d x <= k)%Z.
Proof.
  unfold lower. destruct (Z.eqb_spec x (-1)), (Z.ltb_spec d x); simpl; lia.
Qed.

Lemma lower_range (d lo x : Z) :
  (lo <= d <= 3 -> lo <= 0 -> lo <= x <= 3 -> lo <= lower d x <= 3)%Z.
Proof.
  unfold lower. destruct (Z.eqb_spec x (-1)), (Z.ltb_spec d x); simpl; lia.
Qed.

Lemma lower_zero (d x : Z) : (0 < d)%Z -> lower d x = 0%Z <-> x = 0%Z.
Proof.
  unfold lower. destruct (Z.eqb_spec x (-1)), (Z.ltb_spec d x); simpl; lia.
Qed.

Lemma lower_0_classified (x : Z) : (-1 <= x)%Z -> lower 0 x = 0%Z.
Proof.
  unfold lower. destruct (Z.eqb_spec x (-1)), (Z.ltb_spec 0 x); simpl; lia.
Qed.

(** ** The part of the triangulation that initialization leaves alone *)

Lemma same_mesh_fun {B : Type} (g : Triangulation -> B) :
  (forall t, g t = g (mesh_part t)) ->
  forall c c', same_mesh c c' -> g (triangulation c) = g (triangulation c').
Proof. intros Hg c c' H. by rewrite (Hg (triangulation c)), H, <- Hg. Qed.

Lemma finite_vertices_mesh_part (t : Triangulation) :
  finite_vertices t = finite_vertices (mesh_part t).
Proof.
  unfold finite_vertices, all_vertices, is_infinite_vertex; simpl.
  by rewrite length_fmap.
Qed.

Lemma same_mesh_cell_at (c c' : C3t3) (ch : Cell_handle) :
  same_mesh c c' -> cell_at (triangulation c) ch = cell_at (triangulation c') ch.
Proof. by apply (same_mesh_fun (fun t => cell_at t ch)). Qed.

Lemma same_mesh_finite_cells (c c' : C3t3) :
  same_mesh c c' -> finite_cells (triangulation c) = finite_cells (triangulation c').
Proof. by apply (same_mesh_fun finite_cells). Qed.

Lemma same_mesh_finite_facets (c c' : C3t3) :
  same_mesh c c' -> finite_facets (triangulation c) = finite_facets (triangulation c').
Proof. by apply (same_mesh_fun finite_facets). Qed.

Lemma same_mesh_finite_edges (c c' : C3t3) :
  same_mesh c c' -> finite_edges (triangulation c) = finite_edges (triangulation c').
Proof. by apply (same_mesh_fun finite_edges). Qed.

Lemma same_mesh_finite_vertices (c c' : C3t3) :
  same_mesh c c' ->
  finite_vertices (triangulation c) = finite_vertices (triangulation c').
Proof. apply (same_mesh_fun finite_vertices), finite_vertices_mesh_part. Qed.

Lemma same_mesh_facet_differs (c c' : C3t3) (f : Facet) :
  same_mesh c c' ->
  facet_differs (triangulation c) f = facet_differs (triangulation c') f.
Proof. by apply (same_mesh_fun (fun t => facet_differs t f)). Qed.

Lemma same_mesh_facet_vertex (c c' : C3t3) (f : Facet) (j : nat) :
  same_mesh c c' ->
  facet_vertex (triangulation c) f j = facet_vertex (triangulation c') f j.
Proof. by apply (same_mesh_fun (fun t => facet_vertex t f j)). Qed.

Lemma same_mesh_edge_is_feature (ecmap : EdgeIsConstrainedMap) (c c' : C3t3) (e : Edge) :
  same_mesh c c' ->
  edge_is_feature ecmap (triangulation c) e = edge_is_feature ecmap (triangulation c') e.
Proof. by apply (same_mesh_fun (fun t => edge_is_feature ecmap t e)). Qed.

Lemma same_mesh_make_vertex_pair (c c' : C3t3) (e : Edge) :
  same_mesh c c' ->
  make_vertex_pair (triangulation c) e = make_vertex_pair (triangulation c') e.
Proof. by apply (same_mesh_fun (fun t => make_vertex_pair t e)). Qed.

Lemma same_mesh_edge_source (c c' : C3t3) (e : Edge) :
  same_mesh c c' -> edge_source (triangulation c) e = edge_source (triangulation c') e.
Proof. by apply (same_mesh_fun (fun t => edge_source t e)). Qed.

Lemma same_mesh_edge_target (c c' : C3t3) (e : Edge) :
  same_mesh c c' -> edge_target (triangulation c) e = edge_target (triangulation c') e.
Proof. by apply (same_mesh_fun (fun t => edge_target t e)). Qed.

Lemma same_mesh_map_dimension (f : Z -> Z) (v : Vertex_handle) (c : C3t3) :
  same_mesh c (map_dimension f v c).
Proof.
  unfold same_mesh, mesh_part; simpl. f_equal.
  apply list_eq. intros j. rewrite !list_lookup_fmap, list_lookup_alter.
  destruct (decide (v = j)) as [->|]; [|done].
  by destruct (vertices (triangulation c) !! j).
Qed.

Section Dims_only.
Context (R : Z -> Z -> Prop) `{!Reflexive R} `{!Transitive R}.

Lemma dims_only_refl (c : C3t3) : dims_only R c c.
Proof. split; [done | by apply dims_related_refl]. Qed.

Lemma dims_only_trans (c1 c2 c3 : C3t3) :
  dims_only R c1 c2 -> dims_only R c2 c3 -> dims_only R c1 c3.
Proof.
  intros [Hm1 Hd1] [Hm2 Hd2]. split.
  - unfold same_mesh in *. congruence.
  - by apply (dims_related_trans R c1 c2 c3).
Qed.

Lemma dims_only_marks (c c' : C3t3) :
  triangulation c' = triangulation c -> dims_only R c c'.
Proof.
  intros H. split.
  - unfold same_mesh. by rewrite H.
  - apply dims_related_same; [done|]. intros w. unfold dim. by rewrite H.
Qed.

Lemma dims_only_map (f : Z -> Z) (v : Vertex_handle) (c : C3t3) :
  (forall x, R x (f x)) -> dims_only R c (map_dimension f v c).
Proof.
  intros Hf. split; [apply same_mesh_map_dimension | by apply dims_related_map].
Qed.

(** A loop whose rounds are of that kind is of that kind. *)
Lemma dims_only_fold {A : Type} (step : C3t3 -> A -> C3t3) (l : list A) (c : C3t3) :
  (forall s a, dims_only R s (step s a)) ->
  dims_only R c (fold_left step l c).
Proof.
  intros Hstep.
  apply (fold_left_invariant step (fun s => dims_only R c s)).
  - apply dims_only_refl.
  - intros s a _ Hs. by apply (dims_only_trans c s (step s a)).
Qed.

End Dims_only.

(** *** The rounds of the four loops, in terms of [map_dimension] *)

Lemma add_to_complex_cell_own (c : C3t3) (cit : Cell_handle) :
  add_to_complex_cell c cit (subdomain_of c cit) = c.
Proof.
  unfold add_to_complex_cell, set_subdomain_index, subdomain_of, cell_at.
  rewrite alter_fixed; [apply C3t3_eta|].
  intros x Hx. rewrite Hx. simpl. by destruct x.
Qed.

Lemma tag_cell_eq (sel : CellSelector) (st : C3t3 * Z) (cit : Cell_handle) :
  let t := triangulation st.1 in
  let x := cell_at t cit in
  tag_cell sel st cit
  = (map_dimension classify3 (V3 x)
       (map_dimension classify3 (V2 x)
          (map_dimension classify3 (V1 x)
             (map_dimension classify3 (V0 x) st.1))),
     if sel cit x then Z.max st.2 (subdomain_index x) else st.2).
Proof.
  destruct st as [c m]. unfold tag_cell; simpl fst; simpl snd.
  rewrite add_to_complex_cell_own.
  destruct (sel cit _); simpl; by rewrite !tag_cell_vertex_map.
Qed.

Lemma tag_facet_eq (c : C3t3) (f : Facet) :
  let t := triangulation c in
  tag_facet c f
  = if facet_differs t f
    then map_dimension (lower 2) (facet_vertex t f 2)
           (map_dimension (lower 2) (facet_vertex t f 1)
              (map_dimension (lower 2) (facet_vertex t f 0)
                 (add_to_complex_facet c f)))
    else c.
Proof.
  unfold tag_facet, facet_differs, subdomain_of; simpl.
  destruct (negb _); [|done]. by rewrite !lower_dimension_map.
Qed.

Lemma tag_edge_eq (ecmap : EdgeIsConstrainedMap) (c : C3t3) (e : Edge) :
  let t := triangulation c in
  tag_edge ecmap c e
  = if edge_is_feature ecmap t e
    then map_dimension (lower 1) (edge_target t e)
           (map_dimension (lower 1) (edge_source t e)
              (add_to_complex_edge c e))
    else c.
Proof.
  unfold tag_edge, edge_is_feature, nb_incident_subdomains; simpl.
  destruct (_ || _); [|done]. by rewrite !lower_dimension_map.
Qed.

Lemma tag_vertex_eq (st : C3t3 * nat) (v : Vertex_handle) :
  tag_vertex st v
  = if vertex_is_corner st.1 v
    then (map_dimension (lower 0) v (add_to_complex_vertex st.1 v (S st.2)), S st.2)
    else st.
Proof.
  unfold tag_vertex, vertex_is_corner.
  destruct (_ || _); [|done]. by rewrite lower_dimension_map.
Qed.

(** ** The four loops of init_c3t3 *)

(** *** Marks of the complex after one round *)

Lemma tag_cell_marks (sel : CellSelector) (st : C3t3 * Z) (cit : Cell_handle) :
  let c' := (tag_cell sel st cit).1 in
  facets_ c' = facets_ st.1 /\ edges_ c' = edges_ st.1 /\ corners_ c' = corners_ st.1.
Proof. rewrite tag_cell_eq. done. Qed.

Lemma tag_facet_marks (c : C3t3) (f : Facet) :
  let c' := tag_facet c f in
  facets_ c' = (if facet_differs (triangulation c) f
                then {[ f ]} ∪ facets_ c else facets_ c)
  /\ edges_ c' = edges_ c /\ corners_ c' = corners_ c.
Proof. rewrite tag_facet_eq. by destruct (facet_differs _ _). Qed.

Lemma tag_edge_marks (ecmap : EdgeIsConstrainedMap) (c : C3t3) (e : Edge) :
  let c' := tag_edge ecmap c e in
  facets_ c' = facets_ c
  /\ edges_ c' = (if edge_is_feature ecmap (triangulation c) e
                  then {[ make_vertex_pair (triangulation c) e ]} ∪ edges_ c
                  else edges_ c)
  /\ corners_ c' = corners_ c.
Proof. rewrite tag_edge_eq. by destruct (edge_is_feature _ _ _). Qed.

Lemma tag_vertex_marks (st : C3t3 * nat) (v : Vertex_handle) :
  let c' := (tag_vertex st v).1 in
  facets_ c' = facets_ st.1 /\ edges_ c' = edges_ st.1
  /\ corners_ c' = (if vertex_is_corner st.1 v
                    then <[ v := S st.2 ]> (corners_ st.1)
                    else corners_ st.1).
Proof. rewrite tag_vertex_eq. by destruct (vertex_is_corner _ _). Qed.

(** *** Every round only touches dimensions and marks *)

Section Rounds.
Context (R : Z -> Z -> Prop) `{!Reflexive R} `{!Transitive R}.

Lemma tag_cell_dims_only (sel : CellSelector) (st : C3t3 * Z) (cit : Cell_handle) :
  (forall x, R x (classify3 x)) ->
  dims_only R st.1 (tag_cell sel st cit).1.
Proof.
  intros Hf. rewrite tag_cell_eq. simpl.
  repeat (eapply (dims_only_trans R); [|by apply dims_only_map]).
  apply dims_only_refl; apply _.
Qed.

Lemma tag_facet_dims_only (c : C3t3) (f : Facet) :
  (forall x, R x (lower 2 x)) ->
  dims_only R c (tag_facet c f).
Proof.
  intros Hf. rewrite tag_facet_eq. simpl.
  destruct (facet_differs _ _); [|by apply dims_only_refl].
  repeat (eapply (dims_only_trans R); [|by apply dims_only_map]).
  by apply dims_only_marks.
Qed.

Lemma tag_edge_dims_only (ecmap : EdgeIsConstrainedMap) (c : C3t3) (e : Edge) :
  (forall x, R x (lower 1 x)) ->
  dims_only R c (tag_edge ecmap c e).
Proof.
  intros Hf. rewrite tag_edge_eq. simpl.
  destruct (edge_is_feature _ _ _); [|by apply dims_only_refl].
  repeat (eapply (dims_only_trans R); [|by apply dims_only_map]).
  by apply dims_only_marks.
Qed.

Lemma tag_vertex_dims_only (st : C3t3 * nat) (v : Vertex_handle) :
  (forall x, R x (lower 0 x)) ->
  dims_only R st.1 (tag_vertex st v).1.
Proof.
  intros Hf. rewrite tag_vertex_eq.
  destruct (vertex_is_corner _ _); [|by apply dims_only_refl].
  simpl. eapply (dims_only_trans R); [|by apply dims_only_map].
  by apply dims_only_marks.
Qed.

Lemma tag_cell_fold_dims_only (sel : CellSelector) (l : list Cell_handle) (st : C3t3 * Z) :
  (forall x, R x (classify3 x)) ->
  dims_only R st.1 (fold_left (tag_cell sel) l st).1.
Proof.
  intros Hf.
  apply (fold_left_invariant (tag_cell sel) (fun s => dims_only R st.1 s.1)).
  - by apply dims_only_refl.
  - intros s a _ Hs. eapply (dims_only_trans R); [done|].
    by apply tag_cell_dims_only.
Qed.

Lemma tag_facet_fold_dims_only (l : list Facet) (c : C3t3) :
  (forall x, R x (lower 2 x)) ->
  dims_only R c (fold_left tag_facet l c).
Proof.
  intros Hf. apply dims_only_fold; [apply _ | apply _ |].
  intros. by apply tag_facet_dims_only.
Qed.

Lemma tag_edge_fold_dims_only (ecmap : EdgeIsConstrainedMap) (l : list Edge) (c : C3t3) :
  (forall x, R x (lower 1 x)) ->
  dims_only R c (fold_left (tag_edge ecmap) l c).
Proof.
  intros Hf. apply dims_only_fold; [apply _ | apply _ |].
  intros. by apply tag_edge_dims_only.
Qed.

Lemma tag_vertex_fold_dims_only (l : list Vertex_handle) (st : C3t3 * nat) :
  (forall x, R x (lower 0 x)) ->
  dims_only R st.1 (fold_left tag_vertex l st).1.
Proof.
  intros Hf.
  apply (fold_left_invariant tag_vertex (fun s => dims_only R st.1 s.1)).
  - by apply dims_only_refl.
  - intros s a _ Hs. eapply (dims_only_trans R); [done|].
    by apply tag_vertex_dims_only.
Qed.

End Rounds.

Global Instance any_change_refl : Reflexive any_change.
Proof. by intros x. Qed.

Global Instance any_change_trans : Transitive any_change.
Proof. by intros x y z. Qed.

Lemma tag_cell_fold_same_mesh (sel : CellSelector) (l : list Cell_handle) (st : C3t3 * Z) :
  same_mesh st.1 (fold_left (tag_cell sel) l st).1.
Proof. by apply (tag_cell_fold_dims_only any_change). Qed.

Lemma tag_facet_fold_same_mesh (l : list Facet) (c : C3t3) :
  same_mesh c (fold_left tag_facet l c).
Proof. by apply (tag_facet_fold_dims_only any_change). Qed.

Lemma tag_edge_fold_same_mesh (ecmap : EdgeIsConstrainedMap) (l : list Edge) (c : C3t3) :
  same_mesh c (fold_left (tag_edge ecmap) l c).
Proof. by apply (tag_edge_fold_dims_only any_change). Qed.

Lemma tag_vertex_fold_same_mesh (l : list Vertex_handle) (st : C3t3 * nat) :
  same_mesh st.1 (fold_left tag_vertex l st).1.
Proof. by apply (tag_vertex_fold_dims_only any_change). Qed.

(** *** Marks of the complex after each loop *)

Lemma tag_cell_fold_marks (sel : CellSelector) (l : list Cell_handle) (st : C3t3 * Z) :
  let c' := (fold_left (tag_cell sel) l st).1 in
  facets_ c' = facets_ st.1 /\ edges_ c' = edges_ st.1 /\ corners_ c' = corners_ st.1.
Proof.
  apply (fold_left_invariant (tag_cell sel)
           (fun s => facets_ s.1 = facets_ st.1 /\ edges_ s.1 = edges_ st.1
                     /\ corners_ s.1 = corners_ st.1)); [done|].
  intros s a _ (Hf & He & Hc).
  destruct (tag_cell_marks sel s a) as (Hf' & He' & Hc'). cbv zeta in Hf', He', Hc'.
  by rewrite Hf', He', Hc'.
Qed.

Lemma tag_facet_fold_marks (l : list Facet) (c : C3t3) :
  let c' := fold_left tag_facet l c in
  facets_ c' = facets_ c ∪ list_to_set (List.filter (facet_differs (triangulation c)) l)
  /\ edges_ c' = edges_ c /\ corners_ c' = corners_ c.
Proof.
  revert c. induction l as [|f l IH]; intros c; simpl.
  - split; [set_solver | done].
  - destruct (IH (tag_facet c f)) as (Hf & He & Hc).
    destruct (tag_facet_marks c f) as (Hf' & He' & Hc'). cbv zeta in Hf, He, Hc, Hf', He', Hc'.
    rewrite Hf, He, Hc, Hf', He', Hc'. split; [|done].
    rewrite (List.filter_ext _ (facet_differs (triangulation c))).
    + destruct (facet_differs (triangulation c) f); simpl; set_solver.
    + intros g. symmetry. apply same_mesh_facet_differs.
      apply (tag_facet_fold_same_mesh [f]).
Qed.

Lemma tag_edge_fold_marks (ecmap : EdgeIsConstrainedMap) (l : list Edge) (c : C3t3) :
  let t := triangulation c in
  let c' := fold_left (tag_edge ecmap) l c in
  facets_ c' = facets_ c
  /\ edges_ c' = edges_ c ∪ list_to_set
                   (make_vertex_pair t <$> List.filter (edge_is_feature ecmap t) l)
  /\ corners_ c' = corners_ c.
Proof.
  revert c. induction l as [|e l IH]; intros c; simpl.
  - split; [done | split; [set_solver | done]].
  - destruct (IH (tag_edge ecmap c e)) as (Hf & He & Hc).
    destruct (tag_edge_marks ecmap c e) as (Hf' & He' & Hc'). cbv zeta in Hf, He, Hc, Hf', He', Hc'.
    rewrite Hf, He, Hc, Hf', He', Hc'. split; [done | split; [|done]].
    assert (Hsame : same_mesh c (tag_edge ecmap c e)).
    { apply (tag_edge_fold_same_mesh ecmap [e]). }
    rewrite (List.filter_ext _ (edge_is_feature ecmap (triangulation c))).
    + rewrite (list_fmap_ext (make_vertex_pair (triangulation (tag_edge ecmap c e)))
                             (make_vertex_pair (triangulation c))).
      * destruct (edge_is_feature ecmap (triangulation c) e); simpl; set_solver.
      * intros _ g _. symmetry. by apply same_mesh_make_vertex_pair.
    + intros g. symmetry. by apply same_mesh_edge_is_feature.
Qed.

(** *** The loop "tag cells" *)

Lemma existsb_agree {A : Type} (f g : A -> bool) (l : list A) :
  (forall a, f a = g a) -> existsb f l = existsb g l.
Proof. intros H. induction l as [|a l IH]; simpl; [done | by rewrite H, IH]. Qed.

Lemma lookup_map_dimension (f : Z -> Z) (u v : Vertex_handle) (c : C3t3) :
  vertices (triangulation (map_dimension f u c)) !! v
  = (fun x => if decide (u = v) then mkVertex (point x) (f (in_dimension x)) else x)
    <$> vertices (triangulation c) !! v.
Proof.
  simpl. rewrite list_lookup_alter.
  destruct (decide (u = v)) as [->|]; [done|].
  by destruct (vertices (triangulation c) !! v).
Qed.

Lemma tag_cell_vertices (sel : CellSelector) (st : C3t3 * Z) (cit : Cell_handle)
    (v : Vertex_handle) :
  vertices (triangulation (tag_cell sel st cit).1) !! v
  = classified_in (triangulation st.1) [cit] v <$> vertices (triangulation st.1) !! v.
Proof.
  rewrite tag_cell_eq. cbn [fst].
  rewrite !lookup_map_dimension, <- !option_fmap_compose.
  destruct (vertices (triangulation st.1) !! v) as [x|]; [|done].
  cbn [fmap option_fmap option_map]. f_equal. unfold compose.
  unfold classified_in, in_some_cell. cbn [existsb]. unfold has_vertex.
  generalize (cell_at (triangulation st.1) cit). intros [a0 a1 a2 a3 ? ? ? ? ?].
  cbn [V0 V1 V2 V3]. rewrite orb_false_r.
  destruct x as [p d]. cbn [point in_dimension]. unfold classify3.
  repeat match goal with
         | |- context [decide (?a = v)] =>
             destruct (decide (a = v)) as [Heq|Hne];
             [ rewrite (proj2 (Nat.eqb_eq v a)) by done; clear Heq
             | rewrite (proj2 (Nat.eqb_neq v a)) by congruence; clear Hne ];
             cbn [orb point in_dimension]
         end;
    destruct (Z.eqb_spec d (-1)) as [->|Hd]; cbn; try done;
    repeat (rewrite (proj2 (Z.eqb_neq d (-1)) Hd); cbn); done.
Qed.

Lemma tag_cell_fold_vertices (sel : CellSelector) (l : list Cell_handle)
    (st : C3t3 * Z) (v : Vertex_handle) :
  vertices (triangulation (fold_left (tag_cell sel) l st).1) !! v
  = classified_in (triangulation st.1) l v <$> vertices (triangulation st.1) !! v.
Proof.
  revert st. induction l as [|cit l IH]; intros st; simpl fold_left.
  - destruct (vertices (triangulation st.1) !! v) as [x|]; [|done].
    cbn [fmap option_fmap option_map]. f_equal.
    unfold classified_in, in_some_cell. cbn [existsb].
    by rewrite andb_false_r.
  - rewrite IH, tag_cell_vertices, <- option_fmap_compose.
    destruct (vertices (triangulation st.1) !! v) as [x|]; [|done].
    cbn [fmap option_fmap option_map]. f_equal. unfold compose.
    assert (Hcells : forall ch, cell_at (triangulation (tag_cell sel st cit).1) ch
                                = cell_at (triangulation st.1) ch).
    { intros ch. symmetry. apply same_mesh_cell_at.
      apply (tag_cell_fold_same_mesh sel [cit]). }
    unfold classified_in, in_some_cell. cbn [existsb].
    rewrite orb_false_r.
    rewrite (existsb_agree _ (fun c0 => has_vertex (cell_at (triangulation st.1) c0) v))
      by (intros ch; by rewrite Hcells).
    generalize (has_vertex (cell_at (triangulation st.1) cit) v).
    generalize (existsb (fun c0 => has_vertex (cell_at (triangulation st.1) c0) v) l).
    intros b1 b2. destruct x as [p d]. cbn [point in_dimension].
    destruct (Z.eqb_spec d (-1)) as [->|Hd]; cbn [andb].
    + destruct b2; cbn; [done|]. by destruct b1.
    + cbn [in_dimension]. by rewrite (proj2 (Z.eqb_neq d (-1)) Hd).
Qed.



(** *** The loop "tag vertices" *)

Lemma vertex_is_corner_ext (c c' : C3t3) (v : Vertex_handle) :
  dim c' v = dim c v -> edges_ c' = edges_ c ->
  vertex_is_corner c' v = vertex_is_corner c v.
Proof.
  intros Hd He. unfold vertex_is_corner, nb_incident_complex_edges.
  by rewrite !dimension_of_dim, Hd, He.
Qed.

Lemma tag_vertex_dim (st : C3t3 * nat) (a v : Vertex_handle) :
  dim (tag_vertex st a).1 v
  = if vertex_is_corner st.1 a && bool_decide (a = v)
    then lower 0 <$> dim st.1 v
    else dim st.1 v.
Proof.
  rewrite tag_vertex_eq. destruct (vertex_is_corner st.1 a); simpl; [|done].
  rewrite dim_map_dimension. by destruct (decide (a = v)); simpl;
    [rewrite bool_decide_eq_true_2 | rewrite bool_decide_eq_false_2].
Qed.

Lemma tag_vertex_fold_corners (l : list Vertex_handle) :
  NoDup l ->
  forall st : C3t3 * nat,
    let st' := fold_left tag_vertex l st in
    (forall v, v ∈ dom (corners_ st'.1)
               <-> v ∈ dom (corners_ st.1) \/ (In v l /\ vertex_is_corner st.1 v = true))
    /\ (forall v, In v l -> vertex_is_corner st.1 v = true ->
                  dim st'.1 v = lower 0 <$> dim st.1 v)
    /\ (forall v, ~ In v l -> dim st'.1 v = dim st.1 v).
Proof.
  induction 1 as [|a l Ha Hnd IH]; intros st; simpl fold_left.
  - repeat split; try done; [by left | intros [? | [[] _]]; done].
  - destruct (IH (tag_vertex st a)) as (Hdom & Hset & Hkeep).
    rewrite list_elem_of_In in Ha.
    destruct (tag_vertex_marks st a) as (_ & Hedges & Hcorners). simpl in Hedges, Hcorners.
    assert (Hother : forall v, v <> a -> dim (tag_vertex st a).1 v = dim st.1 v).
    { intros v Hv. rewrite tag_vertex_dim.
      rewrite (bool_decide_eq_false_2 (a = v)) by congruence.
      by rewrite andb_false_r. }
    assert (Hcorner : forall v, v <> a ->
              vertex_is_corner (tag_vertex st a).1 v = vertex_is_corner st.1 v).
    { intros v Hv. apply vertex_is_corner_ext; [by apply Hother | done]. }
    repeat split.
    + intros Hv. apply Hdom in Hv as [Hv | [Hin Hc]].
      * rewrite Hcorners in Hv.
        destruct (vertex_is_corner st.1 a) eqn:Hca; [|by left].
        rewrite dom_insert_L in Hv. apply elem_of_union in Hv as [Hv | Hv]; [|by left].
        apply elem_of_singleton in Hv as ->. right. split; [by left | done].
      * right. split; [by right|]. rewrite <- Hcorner; [done|]. by intros ->.
    + intros [Hv | [[<- | Hin] Hc]]; apply Hdom.
      * left. rewrite Hcorners. destruct (vertex_is_corner st.1 a); [|done].
        rewrite dom_insert_L. set_solver.
      * left. rewrite Hcorners, Hc, dom_insert_L. set_solver.
      * right. split; [done|]. rewrite Hcorner; [done|]. by intros ->.
    + intros v [<- | Hin] Hc.
      * rewrite Hkeep by done. rewrite tag_vertex_dim, Hc.
        by rewrite bool_decide_eq_true_2.
      * assert (v <> a) by (by intros ->).
        rewrite Hset; [by rewrite Hother | done | by rewrite Hcorner].
    + intros v Hv. rewrite Hkeep by (intros ?; apply Hv; by right).
      apply Hother. intros ->. apply Hv. by left.
Qed.

Lemma finite_vertices_NoDup (t : Triangulation) : NoDup (finite_vertices t).
Proof. apply NoDup_ListNoDup, List.NoDup_filter, NoDup_ListNoDup, NoDup_seq. Qed.

Lemma finite_cells_NoDup (t : Triangulation) : NoDup (finite_cells t).
Proof. apply NoDup_ListNoDup, List.NoDup_filter, NoDup_ListNoDup, NoDup_seq. Qed.

(** ** init_c3t3 as a whole *)

Lemma after_init_eq (r : Adaptive_remesher) (ecmap : EdgeIsConstrainedMap) :
  after_init r ecmap = (tag_vertices (after_edges r ecmap)).1.
Proof. reflexivity. Qed.

Lemma Adaptive_remesher_new_eq (t : Triangulation) (sizing : SizingFunction)
    (p : bool) (ecmap : EdgeIsConstrainedMap) (sel : CellSelector) :
  Adaptive_remesher_new t sizing p ecmap sel
  = (mkStore Triangulation_default (init_c3t3 (fresh_remesher t sizing p sel) ecmap).1,
     (init_c3t3 (fresh_remesher t sizing p sel) ecmap).2).
Proof. reflexivity. Qed.

Lemma same_mesh_trans (c1 c2 c3 : C3t3) :
  same_mesh c1 c2 -> same_mesh c2 c3 -> same_mesh c1 c3.
Proof. unfold same_mesh. congruence. Qed.

Section Init.
Variable r : Adaptive_remesher.
Variable ecmap : EdgeIsConstrainedMap.

Lemma after_cells_same_mesh : same_mesh (m_c3t3 r) (after_cells r).
Proof. apply (tag_cell_fold_same_mesh _ _ (m_c3t3 r, 0%Z)). Qed.

Lemma after_facets_same_mesh : same_mesh (m_c3t3 r) (after_facets r).
Proof.
  eapply same_mesh_trans; [apply after_cells_same_mesh|].
  apply tag_facet_fold_same_mesh.
Qed.

Lemma after_edges_same_mesh : same_mesh (m_c3t3 r) (after_edges r ecmap).
Proof.
  eapply same_mesh_trans; [apply after_facets_same_mesh|].
  apply tag_edge_fold_same_mesh.
Qed.

Lemma after_init_same_mesh : same_mesh (m_c3t3 r) (after_init r ecmap).
Proof.
  eapply same_mesh_trans; [apply after_edges_same_mesh|].
  apply (tag_vertex_fold_same_mesh _ (after_edges r ecmap, 0)).
Qed.

Section Init_dims.
Context (R : Z -> Z -> Prop) `{!Reflexive R} `{!Transitive R}.

Lemma facets_loop_dims_only :
  (forall x, R x (lower 2 x)) -> dims_only R (after_cells r) (after_facets r).
Proof. intros. by apply tag_facet_fold_dims_only. Qed.

Lemma edges_loop_dims_only :
  (forall x, R x (lower 1 x)) -> dims_only R (after_facets r) (after_edges r ecmap).
Proof. intros. by apply tag_edge_fold_dims_only. Qed.

Lemma vertices_loop_dims_only :
  (forall x, R x (lower 0 x)) -> dims_only R (after_edges r ecmap) (after_init r ecmap).
Proof.
  intros. by apply (tag_vertex_fold_dims_only R _ (after_edges r ecmap, 0)).
Qed.

Lemma cells_loop_dims_only :
  (forall x, R x (classify3 x)) -> dims_only R (m_c3t3 r) (after_cells r).
Proof.
  intros. by apply (tag_cell_fold_dims_only R _ _ (m_c3t3 r, 0%Z)).
Qed.

Lemma before_edges_dims_only :
  (forall x, R x (classify3 x)) -> (forall x, R x (lower 2 x)) ->
  dims_only R (m_c3t3 r) (after_facets r).
Proof.
  intros. eapply (dims_only_trans R); [by apply cells_loop_dims_only|].
  by apply facets_loop_dims_only.
Qed.

Lemma before_vertices_dims_only :
  (forall x, R x (classify3 x)) -> (forall x, R x (lower 2 x)) ->
  (forall x, R x (lower 1 x)) ->
  dims_only R (m_c3t3 r) (after_edges r ecmap).
Proof.
  intros. eapply (dims_only_trans R); [by apply before_edges_dims_only|].
  by apply edges_loop_dims_only.
Qed.

Lemma init_dims_only :
  (forall x, R x (classify3 x)) -> (forall x, R x (lower 2 x)) ->
  (forall x, R x (lower 1 x)) -> (forall x, R x (lower 0 x)) ->
  dims_only R (m_c3t3 r) (after_init r ecmap).
Proof.
  intros. eapply (dims_only_trans R); [by apply before_vertices_dims_only|].
  by apply vertices_loop_dims_only.
Qed.

Lemma after_facets_dims_only :
  (forall x, R x (lower 1 x)) -> (forall x, R x (lower 0 x)) ->
  dims_only R (after_facets r) (after_init r ecmap).
Proof.
  intros. eapply (dims_only_trans R); [by apply edges_loop_dims_only|].
  by apply vertices_loop_dims_only.
Qed.

Lemma after_cells_dims_only :
  (forall x, R x (lower 2 x)) -> (forall x, R x (lower 1 x)) ->
  (forall x, R x (lower 0 x)) ->
  dims_only R (after_cells r) (after_init r ecmap).
Proof.
  intros. eapply (dims_only_trans R); [by apply facets_loop_dims_only|].
  by apply after_facets_dims_only.
Qed.

End Init_dims.

(** The marks after initialization. *)
Lemma after_init_facets :
  facets_ (after_init r ecmap)
  = facets_ (m_c3t3 r)
    ∪ list_to_set (List.filter (facet_differs (tr r)) (finite_facets (tr r))).
Proof.
  rewrite after_init_eq.
  pose proof (fold_left_invariant tag_vertex
                (fun s => facets_ s.1 = facets_ (after_edges r ecmap))) as Hv.
  unfold tag_vertices. rewrite Hv; [|done|]; cycle 1.
  { intros s a _ Hs. destruct (tag_vertex_marks s a) as (Hf & _). simpl in Hf.
    by rewrite Hf. }
  unfold after_edges, tag_edges.
  destruct (tag_edge_fold_marks ecmap (finite_edges (triangulation (after_facets r)))
              (after_facets r)) as (-> & _).
  unfold after_facets, tag_facets.
  destruct (tag_facet_fold_marks (finite_facets (triangulation (after_cells r)))
              (after_cells r)) as (-> & _).
  destruct (tag_cell_fold_marks (m_cell_selector r) (finite_cells (tr r))
              (m_c3t3 r, 0%Z)) as (Hf & _). simpl in Hf.
  unfold after_cells at 1, tag_cells. fold (tr r). rewrite Hf.
  rewrite <- (same_mesh_finite_facets _ _ after_cells_same_mesh).
  rewrite (List.filter_ext _ (facet_differs (tr r))); [done|].
  intros f. symmetry. apply same_mesh_facet_differs, after_cells_same_mesh.
Qed.

Lemma after_edges_edges :
  edges_ (after_edges r ecmap)
  = edges_ (m_c3t3 r)
    ∪ list_to_set (make_vertex_pair (tr r)
                   <$> List.filter (edge_is_feature ecmap (tr r)) (finite_edges (tr r))).
Proof.
  unfold after_edges, tag_edges.
  destruct (tag_edge_fold_marks ecmap (finite_edges (triangulation (after_facets r)))
              (after_facets r)) as (_ & -> & _).
  unfold after_facets at 1, tag_facets.
  destruct (tag_facet_fold_marks (finite_facets (triangulation (after_cells r)))
              (after_cells r)) as (_ & -> & _).
  destruct (tag_cell_fold_marks (m_cell_selector r) (finite_cells (tr r))
              (m_c3t3 r, 0%Z)) as (_ & He & _). simpl in He.
  unfold after_cells at 1, tag_cells. fold (tr r). rewrite He.
  rewrite <- (same_mesh_finite_edges _ _ after_facets_same_mesh).
  rewrite (List.filter_ext _ (edge_is_feature ecmap (tr r))).
  - rewrite (list_fmap_ext (make_vertex_pair (triangulation (after_facets r)))
                           (make_vertex_pair (tr r))); [done|].
    intros _ e _. symmetry. apply same_mesh_make_vertex_pair, after_facets_same_mesh.
  - intros e. symmetry. apply same_mesh_edge_is_feature, after_facets_same_mesh.
Qed.

Lemma after_init_edges : edges_ (after_init r ecmap) = edges_ (after_edges r ecmap).
Proof.
  rewrite after_init_eq. unfold tag_vertices.
  apply (fold_left_invariant tag_vertex
           (fun s => edges_ s.1 = edges_ (after_edges r ecmap))); [done|].
  intros s a _ Hs. destruct (tag_vertex_marks s a) as (_ & He & _). simpl in He.
  by rewrite He.
Qed.

Lemma after_edges_corners : corners_ (after_edges r ecmap) = corners_ (m_c3t3 r).
Proof.
  unfold after_edges, tag_edges.
  destruct (tag_edge_fold_marks ecmap (finite_edges (triangulation (after_facets r)))
              (after_facets r)) as (_ & _ & ->).
  unfold after_facets, tag_facets.
  destruct (tag_facet_fold_marks (finite_facets (triangulation (after_cells r)))
              (after_cells r)) as (_ & _ & ->).
  destruct (tag_cell_fold_marks (m_cell_selector r) (finite_cells (tr r))
              (m_c3t3 r, 0%Z)) as (_ & _ & Hc). apply Hc.
Qed.

End Init.


(** The complex edges when the constructor ends. *)
Lemma fresh_remesher_edges (t : Triangulation) (sizing : SizingFunction) (p : bool)
    (ecmap : EdgeIsConstrainedMap) (sel : CellSelector) :
  edges_ (after_init (fresh_remesher t sizing p sel) ecmap)
  = list_to_set (make_vertex_pair t
                 <$> List.filter (edge_is_feature ecmap t) (finite_edges t)).
Proof.
  rewrite after_init_edges, after_edges_edges.
  change (edges_ (m_c3t3 (fresh_remesher t sizing p sel))) with (∅ : gset (nat * nat)).
  by rewrite union_empty_l_L.
Qed.

(** ** What initialization does: vertices of cells, imaginary index *)

(** C2 does not hold as stated.  In the triangulation of one tetrahedron
    with a selector that rejects every cell, the four vertices of the
    tetrahedron are unclassified, no selected cell is incident to them,
    and "tag cells" sets them to dimension 3. *)
Lemma tag_cells_ignores_the_selector :
  ~ classifies_vertices_of_selected_cells_only Examples.select_none
      (with_triangulation C3t3_default Examples.single_tetrahedron).
Proof.
  intros H.
  destruct (proj1 (H 1 (Examples.unclassified 0 0 0) eq_refl eq_refl))
    as (cit & _ & Hsel & _); [by vm_compute | discriminate Hsel].
Qed.

(** C2, amended.  "Tag cells" sets to dimension 3 exactly the vertices
    that have dimension -1 and belong to a finite cell, whether the
    selector accepts the cell or not; it leaves every other vertex, and
    the position of every vertex, as they are. *)
Theorem tag_cells_classifies_vertices_of_finite_cells
    (sel : CellSelector) (c : C3t3) (v : Vertex_handle) :
  let t := triangulation c in
  let c' := (tag_cells sel c).1 in
  vertices (triangulation c') !! v
  = classified_in t (finite_cells t) v <$> vertices t !! v
  /\ (forall x, vertices t !! v = Some x ->
        (dimension_of c' v = 3%Z /\ in_dimension x <> 3%Z
         <-> in_dimension x = (-1)%Z /\ in_some_cell t (finite_cells t) v = true)).
Proof.
  simpl.
  pose proof (tag_cell_fold_vertices sel (finite_cells (triangulation c)) (c, 0%Z) v)
    as Hv. simpl in Hv. fold (tag_cells sel c) in Hv.
  split; [done|].
  intros x Hx. unfold dimension_of, vertex_at. rewrite Hv, Hx. simpl.
  unfold classified_in.
  destruct (Z.eqb_spec (in_dimension x) (-1)) as [Hd|Hd]; simpl.
  - destruct (in_some_cell _ _ v); simpl; split; try done; lia.
  - split; [lia | tauto].
Qed.



(** ** What initialization does: facets and edges *)

Global Instance not_raised_refl : Reflexive not_raised.
Proof. intros x Hx. lia. Qed.

Global Instance not_raised_trans : Transitive not_raised.
Proof. intros x y z Hxy Hyz Hx. specialize (Hxy Hx). specialize (Hyz (proj1 Hxy)). lia. Qed.

Lemma classify3_not_raised (x : Z) : not_raised x (classify3 x).
Proof. unfold not_raised, classify3. destruct (Z.eqb_spec x (-1)); lia. Qed.

Lemma lower_not_raised (d x : Z) : (0 <= d)%Z -> not_raised x (lower d x).
Proof.
  unfold not_raised, lower.
  destruct (Z.eqb_spec x (-1)), (Z.ltb_spec d x); simpl; lia.
Qed.

Lemma dimension_of_related (R : Z -> Z -> Prop) (c c' : C3t3) (v : Vertex_handle) :
  R (-1)%Z (-1)%Z -> dims_related R c c' ->
  R (dimension_of c v) (dimension_of c' v).
Proof.
  intros Hrefl Hrel. rewrite !dimension_of_dim.
  destruct (Hrel v); simpl; done.
Qed.

Lemma dimension_of_sat (P : Z -> Prop) (c : C3t3) (v : Vertex_handle) :
  P (-1)%Z -> dim_sat P c v -> P (dimension_of c v).
Proof.
  intros Hdefault Hsat. rewrite dimension_of_dim.
  destruct (dim c v) eqn:Hd; simpl; [by apply Hsat | done].
Qed.

Lemma init_not_raised (r : Adaptive_remesher) (ecmap : EdgeIsConstrainedMap)
    (v : Vertex_handle) :
  not_raised (dimension_of (m_c3t3 r) v) (dimension_of (after_init r ecmap) v).
Proof.
  apply dimension_of_related; [done|].
  apply (init_dims_only r ecmap not_raised);
    first [apply classify3_not_raised | intros; by apply lower_not_raised].
Qed.

Lemma tag_facet_fold_lowers (l : list Facet) (c : C3t3) (f : Facet) (j : nat) :
  In f l ->
  facet_differs (triangulation c) f = true ->
  j < 3 ->
  dim_sat (fun x => (x <= 2)%Z) (fold_left tag_facet l c)
          (facet_vertex (triangulation c) f j).
Proof.
  intros Hin Hdiff Hj.
  apply (fold_left_establish tag_facet (fun s => same_mesh c s)
           (fun s => dim_sat (fun x => (x <= 2)%Z) s (facet_vertex (triangulation c) f j))
           l c f); [done | done | | | ].
  - intros s b Hs. eapply same_mesh_trans; [done|].
    apply (tag_facet_fold_same_mesh [b]).
  - intros s Hs. rewrite tag_facet_eq. simpl.
    rewrite <- (same_mesh_facet_differs c s f Hs), Hdiff.
    rewrite <- !(same_mesh_facet_vertex c s f _ Hs).
    destruct j as [|[|[|j]]]; [| | |lia].
    + apply dim_sat_map_keep; [intros; by apply lower_keeps_le|].
      apply dim_sat_map_keep; [intros; by apply lower_keeps_le|].
      apply dim_sat_map_here. apply lower_bound.
    + apply dim_sat_map_keep; [intros; by apply lower_keeps_le|].
      apply dim_sat_map_here. apply lower_bound.
    + apply dim_sat_map_here. apply lower_bound.
  - intros s b _. apply dim_sat_related.
    apply (tag_facet_dims_only (keeps (fun x => (x <= 2)%Z))).
    intros x Hx. by apply lower_keeps_le.
Qed.

Lemma tag_edge_fold_lowers (ecmap : EdgeIsConstrainedMap) (l : list Edge)
    (c : C3t3) (e : Edge) :
  In e l ->
  edge_is_feature ecmap (triangulation c) e = true ->
  dim_sat (fun x => (x <= 1)%Z) (fold_left (tag_edge ecmap) l c)
          (edge_source (triangulation c) e)
  /\ dim_sat (fun x => (x <= 1)%Z) (fold_left (tag_edge ecmap) l c)
             (edge_target (triangulation c) e).
Proof.
  intros Hin Hfeat.
  apply (fold_left_establish (tag_edge ecmap) (fun s => same_mesh c s)
           (fun s => dim_sat (fun x => (x <= 1)%Z) s (edge_source (triangulation c) e)
                     /\ dim_sat (fun x => (x <= 1)%Z) s (edge_target (triangulation c) e))
           l c e); [done | done | | | ].
  - intros s b Hs. eapply same_mesh_trans; [done|].
    apply (tag_edge_fold_same_mesh ecmap [b]).
  - intros s Hs. rewrite tag_edge_eq. simpl.
    rewrite <- (same_mesh_edge_is_feature ecmap c s e Hs), Hfeat.
    rewrite <- (same_mesh_edge_source c s e Hs), <- (same_mesh_edge_target c s e Hs).
    split.
    + apply dim_sat_map_keep; [intros; by apply lower_keeps_le|].
      apply dim_sat_map_here. apply lower_bound.
    + apply dim_sat_map_here. apply lower_bound.
  - intros s b _ [H1 H2].
    assert (Hrel : dims_related (keeps (fun x => (x <= 1)%Z)) s (tag_edge ecmap s b)).
    { apply (tag_edge_dims_only (keeps (fun x => (x <= 1)%Z))).
      intros x Hx. by apply lower_keeps_le. }
    split; by eapply dim_sat_related.
Qed.

Lemma list_to_set_filter_orb {A B : Type} `{Countable B} (g : A -> B)
    (a b : A -> bool) (l : list A) :
  list_to_set (C := gset B) (g <$> List.filter (fun x => a x || b x) l)
  = list_to_set (g <$> List.filter a l) ∪ list_to_set (g <$> List.filter b l).
Proof.
  induction l as [|x l IH]; [set_solver|].
  simpl List.filter.
  destruct (a x), (b x); simpl orb; cbv iota;
    rewrite ?fmap_cons, ?list_to_set_cons, IH; set_solver.
Qed.

Lemma elem_of_list_to_set_filter {A : Type} `{Countable A} (a : A -> bool)
    (l : list A) (x : A) :
  x ∈ list_to_set (C := gset A) (List.filter a l) <-> In x l /\ a x = true.
Proof. rewrite elem_of_list_to_set, list_elem_of_In. apply List.filter_In. Qed.

(** C7.  During initialization a finite facet is added to the complex if
    and only if the subdomain index of its cell differs from the one of
    the cell on the mirrored side; the three vertices of such a facet end
    with a dimension of at most 2; and no vertex that was classified
    (dimension 0, 1, 2 or 3) ends with a higher dimension. *)
Theorem init_c3t3_tags_facets (t : Triangulation) (sizing : SizingFunction)
    (p : bool) (ecmap : EdgeIsConstrainedMap) (sel : CellSelector) :
  let c := m_c3t3 (this (Adaptive_remesher_new t sizing p ecmap sel).1) in
  (forall f : Facet,
     facet_is_in_complex c f = true
     <-> In f (finite_facets t)
         /\ subdomain_index (cell_at t f.1)
            <> subdomain_index (cell_at t (mirror_facet t f).1))
  /\ (forall (f : Facet) (j : nat),
        In f (finite_facets t) ->
        subdomain_index (cell_at t f.1)
        <> subdomain_index (cell_at t (mirror_facet t f).1) ->
        j < 3 ->
        (dimension_of c (facet_vertex t f j) <= 2)%Z)
  /\ (forall v : Vertex_handle,
        (0 <= in_dimension (vertex_at t v))%Z ->
        (0 <= dimension_of c v <= in_dimension (vertex_at t v))%Z).
Proof.
  set (r := fresh_remesher t sizing p sel).
  change (m_c3t3 (this (Adaptive_remesher_new t sizing p ecmap sel).1))
    with (after_init r ecmap).
  cbv zeta.
  assert (Hdiff : forall f : Facet,
            facet_differs t f = true
            <-> subdomain_index (cell_at t f.1)
                <> subdomain_index (cell_at t (mirror_facet t f).1)).
  { intros f. unfold facet_differs. rewrite negb_true_iff. apply Z.eqb_neq. }
  split; [|split].
  - intros f. unfold facet_is_in_complex. rewrite bool_decide_eq_true.
    rewrite after_init_facets. change (facets_ (m_c3t3 r)) with (∅ : gset (nat * nat)).
    change (tr r) with t.
    rewrite union_empty_l_L, elem_of_list_to_set_filter. by rewrite Hdiff.
  - intros f j Hin Hne Hj.
    apply (dimension_of_sat (fun x => (x <= 2)%Z)); [lia|].
    apply (dim_sat_related _ (after_facets r)).
    { apply (after_facets_dims_only r ecmap (keeps (fun x => (x <= 2)%Z)));
        intros x Hx; by apply lower_keeps_le. }
    pose proof (after_cells_same_mesh r) as Hsame.
    change (triangulation (m_c3t3 r)) with t in Hsame.
    change t with (triangulation (m_c3t3 r)).
    rewrite (same_mesh_facet_vertex _ _ f j Hsame).
    unfold after_facets, tag_facets. apply tag_facet_fold_lowers; [| |done].
    + by rewrite <- (same_mesh_finite_facets _ _ Hsame).
    + rewrite <- (same_mesh_facet_differs _ _ f Hsame). by apply Hdiff.
  - intros v. apply (init_not_raised r ecmap v).
Qed.

(** C3 does not hold as stated.  With a map that declares every edge
    constrained, the infinite edges of the triangulation of one
    tetrahedron are declared constrained, and initialization does not add
    them to the complex. *)
Lemma init_c3t3_skips_constrained_infinite_edges :
  ~ complex_edges_as_stated Examples.constrain_all Examples.single_tetrahedron
      (m_c3t3 (this (Adaptive_remesher_new Examples.single_tetrahedron
                       Examples.unit_sizing false Examples.constrain_all
                       Examples.select_all).1)).
Proof.
  unfold complex_edges_as_stated. intros H.
  assert (Hin : (0, 2) ∈ edges_ (m_c3t3 (this (Adaptive_remesher_new
                    Examples.single_tetrahedron Examples.unit_sizing false
                    Examples.constrain_all Examples.select_all).1))).
  { rewrite H. apply elem_of_union_l, elem_of_list_to_set.
    apply list_elem_of_In. vm_compute. tauto. }
  revert Hin. apply (bool_decide_eq_false_1 _). by vm_compute.
Qed.

(** C3, amended.  After initialization the complex edges are the finite
    edges that the map declares constrained together with the finite
    edges with more than two incident subdomains; both vertices of such
    an edge end with a dimension of at most 1; and no vertex that was
    classified ends with a higher dimension. *)
Theorem init_c3t3_tags_edges (t : Triangulation) (sizing : SizingFunction)
    (p : bool) (ecmap : EdgeIsConstrainedMap) (sel : CellSelector) :
  let c := m_c3t3 (this (Adaptive_remesher_new t sizing p ecmap sel).1) in
  edges_ c
  = list_to_set (make_vertex_pair t
                 <$> List.filter (fun e => ecmap (make_vertex_pair t e)) (finite_edges t))
    ∪ list_to_set (make_vertex_pair t
                   <$> List.filter (fun e => Nat.ltb 2 (nb_subdomains_around t e))
                         (finite_edges t))
  /\ (forall e : Edge,
        In e (finite_edges t) ->
        ecmap (make_vertex_pair t e) = true \/ 2 < nb_subdomains_around t e ->
        edge_is_in_complex c e = true
        /\ (dimension_of c (edge_source t e) <= 1)%Z
        /\ (dimension_of c (edge_target t e) <= 1)%Z)
  /\ (forall v : Vertex_handle,
        (0 <= in_dimension (vertex_at t v))%Z ->
        (0 <= dimension_of c v <= in_dimension (vertex_at t v))%Z).
Proof.
  set (r := fresh_remesher t sizing p sel).
  change (m_c3t3 (this (Adaptive_remesher_new t sizing p ecmap sel).1))
    with (after_init r ecmap).
  cbv zeta.
  assert (Hedges : edges_ (after_init r ecmap)
            = list_to_set (make_vertex_pair t
                 <$> List.filter (edge_is_feature ecmap t) (finite_edges t))).
  { apply fresh_remesher_edges. }
  pose proof (after_init_same_mesh r ecmap) as Hsame_init.
  pose proof (after_facets_same_mesh r) as Hsame.
  change (triangulation (m_c3t3 r)) with t in Hsame, Hsame_init.
  split; [|split].
  - rewrite Hedges. apply list_to_set_filter_orb.
  - intros e Hin Hfeat.
    assert (Hf : edge_is_feature ecmap t e = true).
    { unfold edge_is_feature. destruct Hfeat as [-> | Hlt]; [done|].
      apply orb_true_iff. right. by apply Nat.ltb_lt. }
    split.
    + unfold edge_is_in_complex. rewrite bool_decide_eq_true, Hedges.
      change t with (triangulation (m_c3t3 r)).
      rewrite <- (same_mesh_make_vertex_pair _ _ e Hsame_init).
      apply elem_of_list_to_set, list_elem_of_fmap. exists e. split; [done|].
      apply list_elem_of_In, List.filter_In. done.
    + assert (Hlow : dim_sat (fun x => (x <= 1)%Z) (after_init r ecmap) (edge_source t e)
                     /\ dim_sat (fun x => (x <= 1)%Z) (after_init r ecmap) (edge_target t e)).
      { assert (Hrel : dims_related (keeps (fun x => (x <= 1)%Z))
                         (after_edges r ecmap) (after_init r ecmap)).
        { apply (vertices_loop_dims_only r ecmap (keeps (fun x => (x <= 1)%Z))).
          intros x Hx. by apply lower_keeps_le. }
        change t with (triangulation (m_c3t3 r)).
        rewrite (same_mesh_edge_source _ _ e Hsame), (same_mesh_edge_target _ _ e Hsame).
        destruct (tag_edge_fold_lowers ecmap (finite_edges (triangulation (after_facets r)))
                    (after_facets r) e) as [H1 H2].
        - by rewrite <- (same_mesh_finite_edges _ _ Hsame).
        - by rewrite <- (same_mesh_edge_is_feature ecmap _ _ e Hsame).
        - split; by eapply dim_sat_related. }
      split; apply (dimension_of_sat (fun x => (x <= 1)%Z)); (lia || apply Hlow).
  - intros v. apply (init_not_raised r ecmap v).
Qed.

(** ** What initialization does: corners and classified vertices *)

Global Instance zero_iff_refl : Reflexive zero_iff.
Proof. intros x. unfold zero_iff. tauto. Qed.

Global Instance zero_iff_trans : Transitive zero_iff.
Proof. intros x y z. unfold zero_iff. tauto. Qed.

Lemma finite_vertex_lookup (t : Triangulation) (v : Vertex_handle) :
  In v (finite_vertices t) -> exists x, vertices t !! v = Some x.
Proof.
  intros Hin. apply List.filter_In in Hin as [Hin _].
  apply List.in_seq in Hin. apply lookup_lt_is_Some. lia.
Qed.

Lemma dim_lookup (c : C3t3) (v : Vertex_handle) (x : Vertex) :
  vertices (triangulation c) !! v = Some x -> dim c v = Some (in_dimension x).
Proof. intros H. unfold dim. by rewrite H. Qed.

Lemma dims_related_lookup (R : Z -> Z -> Prop) (c c' : C3t3) (v : Vertex_handle)
    (x : Z) :
  dims_related R c c' -> dim c v = Some x ->
  exists x', dim c' v = Some x' /\ R x x'.
Proof.
  intros Hrel Hx. specialize (Hrel v). rewrite Hx in Hrel.
  inversion Hrel; subst. eauto.
Qed.

(** C6.  During initialization a finite vertex is registered as a corner
    if and only if its dimension is 0 or it has more than two incident
    complex edges; no other vertex is registered; and, the dimensions of
    the input being -1, 0, 1, 2 or 3, every registered corner ends with
    dimension 0. *)
Theorem init_c3t3_tags_corners (t : Triangulation) (sizing : SizingFunction)
    (p : bool) (ecmap : EdgeIsConstrainedMap) (sel : CellSelector)
    (Hwf : dimensions_well_formed t) :
  let c := m_c3t3 (this (Adaptive_remesher_new t sizing p ecmap sel).1) in
  (forall v : Vertex_handle,
     In v (finite_vertices t) ->
     (vertex_is_in_complex c v = true
      <-> in_dimension (vertex_at t v) = 0%Z \/ 2 < nb_incident_complex_edges v c))
  /\ (forall v : Vertex_handle,
        vertex_is_in_complex c v = true ->
        In v (finite_vertices t) /\ dimension_of c v = 0%Z).
Proof.
  set (r := fresh_remesher t sizing p sel).
  change (m_c3t3 (this (Adaptive_remesher_new t sizing p ecmap sel).1))
    with (after_init r ecmap).
  cbv zeta.
  pose proof (after_edges_same_mesh r ecmap) as Hsame.
  change (triangulation (m_c3t3 r)) with t in Hsame.
  assert (Hfv : finite_vertices (triangulation (after_edges r ecmap)) = finite_vertices t).
  { symmetry. apply (same_mesh_finite_vertices (m_c3t3 r)), Hsame. }
  destruct (tag_vertex_fold_corners (finite_vertices t) (finite_vertices_NoDup t)
              (after_edges r ecmap, 0)) as (Hdom & Hset & _).
  cbn [fst snd] in Hdom, Hset.
  assert (Hfinal : (fold_left tag_vertex (finite_vertices t) (after_edges r ecmap, 0)).1
                   = after_init r ecmap).
  { rewrite after_init_eq. unfold tag_vertices. by rewrite Hfv. }
  rewrite Hfinal in Hdom, Hset.
  assert (Hreg : forall v, vertex_is_in_complex (after_init r ecmap) v = true
                           <-> In v (finite_vertices t)
                               /\ vertex_is_corner (after_edges r ecmap) v = true).
  { intros v. unfold vertex_is_in_complex. rewrite bool_decide_eq_true, Hdom.
    rewrite after_edges_corners. change (corners_ (m_c3t3 r)) with (∅ : gmap nat nat).
    rewrite dom_empty_L.
    split; [intros [H|H]; [by apply not_elem_of_empty in H | done] | by right]. }
  assert (Hcorner : forall v,
            vertex_is_corner (after_edges r ecmap) v = true
            <-> in_dimension (vertex_at t v) = 0%Z
                \/ 2 < nb_incident_complex_edges v (after_init r ecmap)).
  { intros v. unfold vertex_is_corner, nb_incident_complex_edges.
    rewrite after_init_edges, orb_true_iff, Z.eqb_eq, Nat.ltb_lt.
    assert (Hz : zero_iff (dimension_of (m_c3t3 r) v)
                          (dimension_of (after_edges r ecmap) v)).
    { apply dimension_of_related; [done|].
      apply (before_vertices_dims_only r ecmap zero_iff).
      - intros x. unfold zero_iff. by rewrite classify3_zero.
      - intros x. unfold zero_iff. by rewrite lower_zero.
      - intros x. unfold zero_iff. by rewrite lower_zero. }
    change (dimension_of (m_c3t3 r) v) with (in_dimension (vertex_at t v)) in Hz.
    unfold zero_iff in Hz. tauto. }
  split.
  - intros v Hin. rewrite Hreg, Hcorner. tauto.
  - intros v Hv. apply Hreg in Hv as [Hin Hc]. split; [done|].
    destruct (finite_vertex_lookup t v Hin) as [x Hx].
    assert (Hd0 : dim (m_c3t3 r) v = Some (in_dimension x)) by by apply dim_lookup.
    destruct (dims_related_lookup (keeps (fun y => (-1 <= y)%Z)) (m_c3t3 r)
                (after_edges r ecmap) v (in_dimension x)) as (x' & Hx' & Hkeep);
      [|done|].
    { apply (before_vertices_dims_only r ecmap (keeps (fun y => (-1 <= y)%Z)));
        intros y Hy.
      - unfold classify3. destruct (Z.eqb_spec y (-1)); lia.
      - unfold lower. destruct (Z.eqb_spec y (-1)), (Z.ltb_spec 2 y); simpl; lia.
      - unfold lower. destruct (Z.eqb_spec y (-1)), (Z.ltb_spec 1 y); simpl; lia. }
    rewrite dimension_of_dim, (Hset v Hin Hc), Hx'. simpl.
    apply lower_0_classified, Hkeep. apply (Hwf v x Hx).
Qed.

(** [check_vertex_dimensions] returns true exactly when every finite
    vertex is classified. *)
Lemma check_vertex_dimensions_from_true (c : C3t3) (l : list Vertex_handle) :
  check_vertex_dimensions_from c l = true
  <-> forall v, In v l -> (0 <= dimension_of c v <= 3)%Z.
Proof.
  induction l as [|v l IH]; simpl; [by split|].
  destruct (Z.ltb_spec (dimension_of c v) 0), (Z.ltb_spec 3 (dimension_of c v));
    simpl; rewrite ?IH; split; try done.
  all: try (intros H'; specialize (H' v (or_introl eq_refl)); lia).
  - intros Hl w [<- | Hw]; [lia | by apply Hl].
  - intros Hl w Hw. apply Hl. by right.
Qed.

Lemma check_vertex_dimensions_true (r : Adaptive_remesher) :
  check_vertex_dimensions r = true <-> dimensions_classified (m_c3t3 r).
Proof. apply check_vertex_dimensions_from_true. Qed.

Lemma init_c3t3_classifies (r : Adaptive_remesher) (ecmap : EdgeIsConstrainedMap) :
  dimensions_well_formed (tr r) ->
  finite_vertices_covered (tr r) ->
  dimensions_classified (after_init r ecmap).
Proof.
  intros Hwf Hcov v Hin.
  rewrite <- (same_mesh_finite_vertices _ _ (after_init_same_mesh r ecmap)) in Hin.
  destruct (finite_vertex_lookup _ v Hin) as [x Hx].
  assert (Hc1 : dim_sat (fun y => (0 <= y <= 3)%Z) (after_cells r) v).
  { intros y. unfold dim, after_cells, tag_cells.
    rewrite tag_cell_fold_vertices. simpl fst. rewrite Hx. simpl.
    unfold classified_in. fold (tr r). rewrite (Hcov v Hin), andb_true_r.
    specialize (Hwf v x Hx).
    destruct (Z.eqb_spec (in_dimension x) (-1)); simpl; intros [= <-]; lia. }
  assert (Hc4 : dim_sat (fun y => (0 <= y <= 3)%Z) (after_init r ecmap) v).
  { eapply dim_sat_related; [|exact Hc1].
    apply (after_cells_dims_only r ecmap (keeps (fun y => (0 <= y <= 3)%Z)));
      intros y Hy; apply lower_range; lia. }
  assert (Hx4 : exists y, dim (after_init r ecmap) v = Some y).
  { destruct (dims_related_lookup any_change (m_c3t3 r) (after_init r ecmap) v
                (in_dimension x)) as (y & Hy & _); [| by apply dim_lookup | by eexists].
    by apply (init_dims_only r ecmap any_change). }
  destruct Hx4 as [y Hy]. rewrite dimension_of_dim, Hy. simpl. by apply Hc4.
Qed.

Section Phases.
Variable ext : Collaborators.
Hypothesis Hops : operators_keep_dimensions ext.

Lemma CGAL_assertion_Some {T : Type} (cond : bool) (x y : T) :
  CGAL_assertion cond x = Some y -> cond = true /\ y = x.
Proof. unfold CGAL_assertion. destruct cond; [by intros [= <-] | done]. Qed.

Lemma run_phase_keeps_dimensions (ph : phase) (r r' : Adaptive_remesher) :
  run_phase ext ph r = Some r' ->
  dimensions_classified (m_c3t3 r) ->
  dimensions_classified (m_c3t3 r').
Proof.
  destruct Hops as (Hlayer & Hsplit & Hcollapse & Hflip & Hsmooth).
  intros Hrun Hr. destruct ph; simpl in Hrun.
  - apply CGAL_assertion_Some in Hrun as [_ ->]. by apply Hlayer.
  - unfold split in Hrun.
    destruct (CGAL_assertion (check_vertex_dimensions r) tt); [|done]. simpl in Hrun.
    apply CGAL_assertion_Some in Hrun as [_ ->]. by apply Hsplit.
  - unfold collapse in Hrun.
    destruct (CGAL_assertion (check_vertex_dimensions r) tt); [|done]. simpl in Hrun.
    apply CGAL_assertion_Some in Hrun as [_ ->]. by apply Hcollapse.
  - apply CGAL_assertion_Some in Hrun as [_ ->]. by apply Hflip.
  - apply CGAL_assertion_Some in Hrun as [_ ->]. by apply Hsmooth.
Qed.

Lemma reachable_keeps_dimensions (r0 r : Adaptive_remesher) :
  reachable ext r0 r ->
  dimensions_classified (m_c3t3 r0) ->
  dimensions_classified (m_c3t3 r).
Proof.
  induction 1 as [|ph r r' _ IH Hrun]; [done|].
  intros H0. eapply run_phase_keeps_dimensions; [done | by apply IH].
Qed.

End Phases.

(** C5.  For an input whose vertex dimensions are -1, 0, 1, 2 or 3 and
    whose finite vertices all belong to a finite cell: after the
    constructor every finite vertex has a dimension in 0..3, and
    [check_vertex_dimensions] returns true; it still returns true in
    every state that the phases reach from there (their operators keeping
    the vertices classified), so that the assertion on entry to [split]
    and [collapse] holds. *)
Theorem init_c3t3_classifies_every_vertex (ext : Collaborators)
    (t : Triangulation) (sizing : SizingFunction) (p : bool)
    (ecmap : EdgeIsConstrainedMap) (sel : CellSelector)
    (Hwf : dimensions_well_formed t)
    (Hcov : finite_vertices_covered t)
    (Hops : operators_keep_dimensions ext) :
  let r0 := this (Adaptive_remesher_new t sizing p ecmap sel).1 in
  (forall v, In v (finite_vertices (tr r0)) ->
             (0 <= dimension_of (m_c3t3 r0) v <= 3)%Z
             /\ dimension_of (m_c3t3 r0) v <> (-1)%Z)
  /\ check_vertex_dimensions r0 = true
  /\ (forall r, reachable ext r0 r ->
                check_vertex_dimensions r = true
                /\ CGAL_assertion (check_vertex_dimensions r) tt = Some tt).
Proof.
  set (r := fresh_remesher t sizing p sel).
  assert (Hinit : dimensions_classified (after_init r ecmap)).
  { by apply init_c3t3_classifies. }
  change (this (Adaptive_remesher_new t sizing p ecmap sel).1)
    with (init_c3t3 r ecmap).1.
  cbv zeta. fold (after_init r ecmap).
  split; [|split].
  - intros v Hv. specialize (Hinit v Hv). lia.
  - by apply check_vertex_dimensions_true.
  - intros r' Hreach.
    assert (Hcheck : check_vertex_dimensions r' = true).
    { apply check_vertex_dimensions_true.
      by apply (reachable_keeps_dimensions ext Hops (init_c3t3 r ecmap).1 r'). }
    by rewrite Hcheck.
Qed.

(** ** resolution_reached *)

Lemma FT_lt_false (a b : FT) : FT_lt a b = false <-> (b <= a)%Q.
Proof.
  unfold FT_lt. rewrite negb_false_iff. apply Qle_bool_iff.
Qed.

Lemma resolution_reached_from_true (ext : Collaborators) (r : Adaptive_remesher)
    (sqmin sqmax : FT) (l : list Edge) :
  (resolution_reached_from ext r sqmin sqmax l).1 = true
  <-> forall e, In e l -> edge_is_measured ext r e = true ->
        (sqmin <= squared_length (tr r) e)%Q /\ (squared_length (tr r) e <= sqmax)%Q.
Proof.
  induction l as [|e l IH]; cbn [resolution_reached_from].
  - split; [intros _ e [] | done].
  - unfold edge_is_measured in *.
    destruct (m_protect_boundaries r
              && (edge_is_in_complex (m_c3t3 r) e
                  || is_boundary ext (m_c3t3 r) e (m_cell_selector r))) eqn:Hp.
    { rewrite IH. split.
      - intros H e' [<- | Hin]; [by rewrite Hp | by apply H].
      - intros H e' Hin. apply H. by right. }
    destruct (is_imaginary ext e (m_c3t3 r) (m_imaginary_index r)) eqn:Hi.
    { rewrite IH. split.
      - intros H e' [<- | Hin]; [by rewrite Hp, Hi | by apply H].
      - intros H e' Hin. apply H. by right. }
    destruct (FT_lt (squared_length (tr r) e) sqmin) eqn:Hlo;
      [|destruct (FT_lt sqmax (squared_length (tr r) e)) eqn:Hhi]; cbn [orb fst].
    + split; [done|]. intros H.
      destruct (H e (or_introl eq_refl)) as [Hle _]; [by rewrite Hp, Hi|].
      apply FT_lt_false in Hle. congruence.
    + split; [done|]. intros H.
      destruct (H e (or_introl eq_refl)) as [_ Hle]; [by rewrite Hp, Hi|].
      apply FT_lt_false in Hle. congruence.
    + rewrite IH. apply FT_lt_false in Hlo, Hhi. split.
      * intros H e' [<- | Hin]; [done | by apply H].
      * intros H e' Hin. apply H. by right.
Qed.

(** C1 does not hold as stated.  One tetrahedron, all of whose edges are
    constrained and hence complex, with [protect_boundaries = false] and
    target length 1: every finite edge is a complex edge, so the stated
    criterion holds, and [resolution_reached] returns false because it
    measures the complex edges of squared length 2. *)
Lemma resolution_reached_measures_complex_edges :
  let r := this (Adaptive_remesher_new Examples.single_tetrahedron
                   Examples.unit_sizing false Examples.constrain_all
                   Examples.select_all).1 in
  ~ ((resolution_reached Examples.idle r).1 = true
     <-> resolution_criterion_as_stated Examples.idle r).
Proof.
  intros r [_ H].
  assert (Hfalse : (resolution_reached Examples.idle r).1 = false) by by vm_compute.
  rewrite H in Hfalse; [done|].
  intros e Hin Hcomplex. exfalso.
  assert (Hall : forallb (edge_is_in_complex (m_c3t3 r)) (finite_edges (tr r)) = true)
    by by vm_compute.
  rewrite List.forallb_forall in Hall. specialize (Hall e Hin). congruence.
Qed.

(** C1, amended.  [resolution_reached] returns true if and only if every
    finite edge that is not imaginary and that, when [protect_boundaries]
    is set, is neither a complex edge nor on the boundary, has its squared
    length in [emin², emax²], with [emin = 4/5 L], [emax = 4/3 L] and
    [L = sizing(ORIGIN)].  When [protect_boundaries] is not set, complex
    and boundary edges are measured like the others. *)
Theorem resolution_reached_iff (ext : Collaborators) (r : Adaptive_remesher) :
  (resolution_reached ext r).1 = true
  <-> forall e : Edge,
        In e (finite_edges (tr r)) ->
        (m_protect_boundaries r = true ->
         edge_is_in_complex (m_c3t3 r) e = false
         /\ is_boundary ext (m_c3t3 r) e (m_cell_selector r) = false) ->
        is_imaginary ext e (m_c3t3 r) (m_imaginary_index r) = false ->
        length_in_range r e.
Proof.
  unfold resolution_reached. rewrite resolution_reached_from_true.
  unfold edge_is_measured, length_in_range, emin, emax.
  split; intros H e Hin.
  - intros Hp Hi. apply H; [done|]. rewrite Hi, andb_true_r, negb_true_iff.
    destruct (m_protect_boundaries r); [|done].
    destruct Hp as [-> ->]; done.
  - intros Hm. apply andb_true_iff in Hm as [Hp Hi].
    apply negb_true_iff in Hp, Hi. apply H; [done | | done].
    intros Hprot. rewrite Hprot in Hp. cbn [andb] in Hp.
    by apply orb_false_iff in Hp.
Qed.

(** ** postprocess *)

Lemma unset_imaginary_cell_cells (imaginary : Subdomain_index) (c : C3t3)
    (cit : Cell_handle) :
  unset_imaginary_cell imaginary c cit
  = with_triangulation c
      (mkTriangulation (vertices (triangulation c))
         (alter (unset_cell imaginary) cit (cells (triangulation c)))
         (infinite_vertex (triangulation c)) (tds_facets (triangulation c))
         (tds_edges (triangulation c))).
Proof.
  unfold unset_imaginary_cell, remove_from_complex_cell, set_subdomain_index,
    subdomain_of, cell_at.
  destruct (Z.eqb _ imaginary) eqn:Htest.
  - f_equal. f_equal. apply alter_agree. intros x Hx.
    rewrite Hx in Htest. cbn in Htest. unfold unset_cell. by rewrite Htest.
  - rewrite alter_fixed; [by rewrite C3t3_eta|].
    intros x Hx. rewrite Hx in Htest. cbn in Htest. unfold unset_cell. by rewrite Htest.
Qed.

Lemma unset_cell_idempotent (imaginary : Subdomain_index) (x : Cell) :
  unset_cell imaginary (unset_cell imaginary x) = unset_cell imaginary x.
Proof.
  unfold unset_cell. destruct (Z.eqb_spec (subdomain_index x) imaginary) as [He|Hne].
  - unfold reset_cell. cbn [subdomain_index V0 V1 V2 V3 N0 N1 N2 N3].
    by destruct (Z.eqb NONE imaginary).
  - by rewrite (proj2 (Z.eqb_neq _ _) Hne).
Qed.

Lemma unset_fold_frame (imaginary : Subdomain_index) (l : list Cell_handle) (c : C3t3) :
  let c' := fold_left (unset_imaginary_cell imaginary) l c in
  vertices (triangulation c') = vertices (triangulation c)
  /\ infinite_vertex (triangulation c') = infinite_vertex (triangulation c)
  /\ tds_facets (triangulation c') = tds_facets (triangulation c)
  /\ tds_edges (triangulation c') = tds_edges (triangulation c)
  /\ facets_ c' = facets_ c /\ edges_ c' = edges_ c /\ corners_ c' = corners_ c.
Proof.
  apply (fold_left_invariant (unset_imaginary_cell imaginary)
           (fun s => vertices (triangulation s) = vertices (triangulation c)
                     /\ infinite_vertex (triangulation s) = infinite_vertex (triangulation c)
                     /\ tds_facets (triangulation s) = tds_facets (triangulation c)
                     /\ tds_edges (triangulation s) = tds_edges (triangulation c)
                     /\ facets_ s = facets_ c /\ edges_ s = edges_ c
                     /\ corners_ s = corners_ c)); [done|].
  intros s a _ H. by rewrite unset_imaginary_cell_cells.
Qed.

Lemma unset_fold_cells (imaginary : Subdomain_index) (l : list Cell_handle)
    (c : C3t3) (ch : Cell_handle) :
  cells (triangulation (fold_left (unset_imaginary_cell imaginary) l c)) !! ch
  = (fun x => if bool_decide (ch ∈ l) then unset_cell imaginary x else x)
    <$> cells (triangulation c) !! ch.
Proof.
  revert c. induction l as [|a l IH]; intros c; cbn [fold_left].
  - rewrite bool_decide_eq_false_2 by (intros H%list_elem_of_In; destruct H).
    by destruct (cells (triangulation c) !! ch).
  - rewrite IH, unset_imaginary_cell_cells. cbn [triangulation with_triangulation cells].
    rewrite list_lookup_alter.
    destruct (decide (a = ch)) as [->|Hne].
    + rewrite (bool_decide_eq_true_2 (ch ∈ ch :: l)) by (apply list_elem_of_In; by left).
      destruct (cells (triangulation c) !! ch) as [x|]; [|done].
      cbn [fmap option_fmap option_map]. f_equal.
      destruct (bool_decide (ch ∈ l)); [apply unset_cell_idempotent | done].
    + destruct (cells (triangulation c) !! ch) as [x|]; [|done].
      cbn [fmap option_fmap option_map]. f_equal.
      destruct (decide (ch ∈ l)) as [Hin|Hnin].
      * rewrite !bool_decide_eq_true_2; [done | | done].
        apply list_elem_of_In. right. by apply list_elem_of_In.
      * rewrite !bool_decide_eq_false_2; [done | | done].
        intros [? | ?%list_elem_of_In]%list_elem_of_In; done.
Qed.

Lemma unset_fold_length (imaginary : Subdomain_index) (l : list Cell_handle) (c : C3t3) :
  length (cells (triangulation (fold_left (unset_imaginary_cell imaginary) l c)))
  = length (cells (triangulation c)).
Proof.
  revert c. induction l as [|a l IH]; intros c; cbn [fold_left]; [done|].
  rewrite IH, unset_imaginary_cell_cells. cbn [triangulation with_triangulation cells].
  apply length_alter.
Qed.

(** The cells after the loop of [postprocess]. *)
Lemma unset_imaginary_cells_cell_at (r : Adaptive_remesher) (ch : Cell_handle) :
  cell_at (triangulation (unset_imaginary_cells r)) ch
  = if bool_decide (ch ∈ finite_cells (tr r))
       && Z.eqb (subdomain_of (m_c3t3 r) ch) (m_imaginary_index r)
    then reset_cell (cell_at (tr r) ch)
    else cell_at (tr r) ch.
Proof.
  unfold cell_at at 1, unset_imaginary_cells.
  rewrite unset_fold_cells. unfold subdomain_of, cell_at, tr.
  destruct (cells (triangulation (m_c3t3 r)) !! ch) as [x|] eqn:Hx.
  - cbn [fmap option_fmap option_map default]. unfold unset_cell.
    by destruct (bool_decide _), (Z.eqb _ _).
  - cbn [fmap option_fmap option_map default].
    rewrite bool_decide_eq_false_2; [done|].
    intros Hin%list_elem_of_In. apply List.filter_In in Hin as [Hin _].
    apply List.in_seq in Hin. apply lookup_ge_None in Hx. unfold all_cells in Hin.
    fold (tr r) in Hin. unfold tr in Hin. lia.
Qed.

(** C8 does not hold as stated.  One tetrahedron of subdomain 1 that the
    selector rejects: [max_si] is 0, the imaginary index is 1, and
    [postprocess] takes the cell out of the complex, which changes its
    subdomain index from 1 to NONE. *)
Lemma postprocess_resets_subdomain_index :
  let r := this (Adaptive_remesher_new Examples.single_tetrahedron
                   Examples.unit_sizing false No_constraint_pmap
                   Examples.select_none).1 in
  ~ postprocess_keeps_subdomain_indices Examples.idle r.
Proof.
  intros r H.
  specialize (H (with_c3t3 r (unset_imaginary_cells r)) eq_refl 0).
  vm_compute in H. discriminate H.
Qed.

(** C8, amended.  [postprocess] takes out of the complex exactly the
    finite cells whose subdomain index is the imaginary index, which it
    does by resetting their subdomain index to NONE; the vertices with
    their positions and dimensions, the number of cells, the vertices and
    neighbours of every cell, the subdomain index of every other cell, the
    marked facets, edges and corners and the other members of the
    remesher are unchanged.  It returns if the audit of the triangulation
    accepts. *)
Theorem postprocess_unsets_imaginary_cells (ext : Collaborators)
    (r : Adaptive_remesher) :
  let c' := unset_imaginary_cells r in
  let imaginary_cell ch :=
    bool_decide (ch ∈ finite_cells (tr r))
    && Z.eqb (subdomain_of (m_c3t3 r) ch) (m_imaginary_index r) in
  postprocess ext r
  = (if is_valid ext (triangulation c') then Some (with_c3t3 r c') else None)
  /\ vertices (triangulation c') = vertices (tr r)
  /\ infinite_vertex (triangulation c') = infinite_vertex (tr r)
  /\ tds_facets (triangulation c') = tds_facets (tr r)
  /\ tds_edges (triangulation c') = tds_edges (tr r)
  /\ facets_ c' = facets_ (m_c3t3 r)
  /\ edges_ c' = edges_ (m_c3t3 r)
  /\ corners_ c' = corners_ (m_c3t3 r)
  /\ length (cells (triangulation c')) = length (cells (tr r))
  /\ (forall ch,
        cell_at (triangulation c') ch
        = if imaginary_cell ch then reset_cell (cell_at (tr r) ch)
          else cell_at (tr r) ch)
  /\ (forall ch,
        cell_is_in_complex c' ch
        = cell_is_in_complex (m_c3t3 r) ch && negb (imaginary_cell ch)).
Proof.
  cbv zeta.
  destruct (unset_fold_frame (m_imaginary_index r) (finite_cells (tr r)) (m_c3t3 r))
    as (Hv & Hi & Hf & He & Hfs & Hes & Hcs).
  fold (unset_imaginary_cells r) in Hv, Hi, Hf, He, Hfs, Hes, Hcs.
  pose proof (unset_imaginary_cells_cell_at r) as Hcell.
  repeat split; try done.
  - apply unset_fold_length.
  - intros ch. unfold cell_is_in_complex, subdomain_of at 1. rewrite Hcell.
    unfold subdomain_of.
    destruct (bool_decide _ && _) eqn:Himg; cbn [negb]; [|by rewrite andb_true_r].
    cbn. by rewrite andb_false_r.
Qed.

(** ** The constructor and finalize: the swap pair *)

(** C9.  The constructor swaps the caller's triangulation into the
    remesher: after it the caller's object holds the empty triangulation
    that [m_c3t3] was built with, and the remesher holds the caller's mesh
    (with the vertex dimensions that initialization set).  [finalize]
    swaps back: after it the caller's object holds the triangulation of
    the remesher, whatever the phases made of it, and the remesher holds
    what the caller's object held. *)
Theorem remeshing_swaps_in_and_out (t : Triangulation) (sizing : SizingFunction)
    (p : bool) (ecmap : EdgeIsConstrainedMap) (sel : CellSelector) :
  let s := (Adaptive_remesher_new t sizing p ecmap sel).1 in
  m_tr s = Triangulation_default
  /\ mesh_part (tr (this s)) = mesh_part t
  /\ (forall s0 : Store,
        m_tr (finalize s0) = tr (this s0)
        /\ tr (this (finalize s0)) = m_tr s0)
  /\ (forall r : Adaptive_remesher,
        m_tr (finalize (mkStore (m_tr s) r)) = tr r
        /\ tr (this (finalize (mkStore (m_tr s) r))) = Triangulation_default).
Proof.
  cbv zeta. split; [done|]. split; [|split].
  - symmetry. apply (after_init_same_mesh (fresh_remesher t sizing p sel) ecmap).
  - intros s0. done.
  - intros r. done.
Qed.

(** ** The theorems on concrete inputs *)

Lemma single_tetrahedron_well_formed :
  dimensions_well_formed Examples.single_tetrahedron.
Proof.
  intros v x Hx.
  destruct v as [|[|[|[|[|v]]]]]; cbn in Hx; [| | | | |done];
    injection Hx as <-; cbn; lia.
Defined.

Lemma single_tetrahedron_covered :
  finite_vertices_covered Examples.single_tetrahedron.
Proof.
  intros v Hv. vm_compute in Hv.
  destruct Hv as [<- | [<- | [<- | [<- | []]]]]; reflexivity.
Defined.

Lemma idle_keeps_dimensions : operators_keep_dimensions Examples.idle.
Proof.
  unfold operators_keep_dimensions.
  split; [|split; [|split; [|split]]]; intros; assumption.
Defined.

Lemma init_c3t3_tags_corners_witness :
  dimensions_well_formed Examples.single_tetrahedron
  /\ forall v : Vertex_handle,
       vertex_is_in_complex
         (m_c3t3 (this (Adaptive_remesher_new Examples.single_tetrahedron
                          Examples.unit_sizing true Examples.constrain_all
                          Examples.select_all).1)) v = true ->
       In v (finite_vertices Examples.single_tetrahedron)
       /\ dimension_of
            (m_c3t3 (this (Adaptive_remesher_new Examples.single_tetrahedron
                             Examples.unit_sizing true Examples.constrain_all
                             Examples.select_all).1)) v = 0%Z.
Proof.
  split; [exact single_tetrahedron_well_formed|].
  exact (proj2 (init_c3t3_tags_corners Examples.single_tetrahedron
                  Examples.unit_sizing true Examples.constrain_all
                  Examples.select_all single_tetrahedron_well_formed)).
Defined.

Lemma init_c3t3_classifies_every_vertex_witness :
  dimensions_well_formed Examples.single_tetrahedron
  /\ finite_vertices_covered Examples.single_tetrahedron
  /\ operators_keep_dimensions Examples.idle
  /\ check_vertex_dimensions
       (this (Adaptive_remesher_new Examples.single_tetrahedron
                Examples.unit_sizing true No_constraint_pmap
                Examples.select_all).1) = true.
Proof.
  split; [exact single_tetrahedron_well_formed|].
  split; [exact single_tetrahedron_covered|].
  split; [exact idle_keeps_dimensions|].
  exact (proj1 (proj2 (init_c3t3_classifies_every_vertex Examples.idle
                         Examples.single_tetrahedron Examples.unit_sizing true
                         No_constraint_pmap Examples.select_all
                         single_tetrahedron_well_formed single_tetrahedron_covered
                         idle_keeps_dimensions))).
Defined.

(** ** Further properties of the remesher *)

(** *** Initialization leaves the mesh and the infinite vertex alone *)

Lemma tag_facet_fold_untouched (l : list Facet) (c : C3t3) (w : Vertex_handle) :
  (forall f j, In f l -> j < 3 -> facet_vertex (triangulation c) f j <> w) ->
  dim (fold_left tag_facet l c) w = dim c w.
Proof.
  intros Hw.
  apply (fold_left_invariant tag_facet
           (fun s => same_mesh c s /\ dim s w = dim c w)); [done|].
  intros s f Hin [Hs Hd]. split.
  - eapply same_mesh_trans; [done|]. apply (tag_facet_fold_same_mesh [f]).
  - rewrite tag_facet_eq. cbv zeta.
    destruct (facet_differs (triangulation s) f); [|done].
    rewrite <- !(same_mesh_facet_vertex c s f _ Hs).
    rewrite !dim_map_dimension.
    rewrite !decide_False by (apply Hw; [done | lia]). done.
Qed.

Lemma tag_edge_fold_untouched (ecmap : EdgeIsConstrainedMap) (l : list Edge)
    (c : C3t3) (w : Vertex_handle) :
  (forall e, In e l ->
     edge_source (triangulation c) e <> w /\ edge_target (triangulation c) e <> w) ->
  dim (fold_left (tag_edge ecmap) l c) w = dim c w.
Proof.
  intros Hw.
  apply (fold_left_invariant (tag_edge ecmap)
           (fun s => same_mesh c s /\ dim s w = dim c w)); [done|].
  intros s e Hin [Hs Hd]. split.
  - eapply same_mesh_trans; [done|]. apply (tag_edge_fold_same_mesh ecmap [e]).
  - rewrite tag_edge_eq. cbv zeta.
    destruct (edge_is_feature ecmap (triangulation s) e); [|done].
    rewrite <- (same_mesh_edge_source c s e Hs), <- (same_mesh_edge_target c s e Hs).
    rewrite !dim_map_dimension.
    destruct (Hw e Hin) as [H1 H2]. by rewrite !decide_False.
Qed.

Lemma tag_cell_fold_untouched (sel : CellSelector) (l : list Cell_handle)
    (st : C3t3 * Z) (w : Vertex_handle) :
  in_some_cell (triangulation st.1) l w = false ->
  dim (fold_left (tag_cell sel) l st).1 w = dim st.1 w.
Proof.
  intros Hw. unfold dim. rewrite tag_cell_fold_vertices.
  destruct (vertices (triangulation st.1) !! w) as [x|]; [|done].
  cbn [fmap option_fmap option_map]. unfold classified_in.
  by rewrite Hw, andb_false_r.
Qed.

Lemma finite_cells_without (t : Triangulation) :
  in_some_cell t (finite_cells t) (infinite_vertex t) = false.
Proof.
  unfold in_some_cell, finite_cells, Triangulation_iterators_3.finite_elements.
  induction (all_cells t) as [|a l IH]; [done|]. cbn [List.filter].
  unfold is_infinite_cell at 1.
  destruct (has_vertex (cell_at t a) (infinite_vertex t)) eqn:Ha; cbn [negb]; [done|].
  cbn [existsb]. by rewrite Ha.
Qed.



(** Initialization changes nothing of the triangulation but dimensions of
    vertices: the cells with their vertices, neighbours and subdomain
    indices, the infinite vertex, the facet and edge sequences, the number
    of vertices and the position of every vertex are as before.  It does
    not touch the infinite vertex either. *)
Theorem init_c3t3_keeps_the_mesh (r : Adaptive_remesher) (ecmap : EdgeIsConstrainedMap) :
  let t' := tr (init_c3t3 r ecmap).1 in
  cells t' = cells (tr r)
  /\ infinite_vertex t' = infinite_vertex (tr r)
  /\ tds_facets t' = tds_facets (tr r)
  /\ tds_edges t' = tds_edges (tr r)
  /\ length (vertices t') = length (vertices (tr r))
  /\ (forall v, point (vertex_at t' v) = point (vertex_at (tr r) v))
  /\ vertices t' !! infinite_vertex (tr r) = vertices (tr r) !! infinite_vertex (tr r).
Proof.
  cbv zeta. change (tr (init_c3t3 r ecmap).1) with (triangulation (after_init r ecmap)).
  unfold tr. set (t := triangulation (m_c3t3 r)). set (t' := triangulation (after_init r ecmap)).
  pose proof (after_init_same_mesh r ecmap) as Hsame.
  unfold same_mesh in Hsame. fold t t' in Hsame.
  pose proof (f_equal vertices Hsame) as Hp.
  pose proof (f_equal cells Hsame) as Hc.
  pose proof (f_equal infinite_vertex Hsame) as Hi.
  pose proof (f_equal tds_facets Hsame) as Hf.
  pose proof (f_equal tds_edges Hsame) as He.
  cbn [mesh_part vertices cells infinite_vertex tds_facets tds_edges] in Hp, Hc, Hi, Hf, He.
  clear Hsame.
  assert (Hlen : length (vertices t') = length (vertices t)).
  { apply (f_equal length) in Hp. by rewrite !length_fmap in Hp. }
  assert (Hpoint : forall v, point (vertex_at t' v) = point (vertex_at t v)).
  { intros v. apply (f_equal (fun l => l !! v)) in Hp.
    rewrite !list_lookup_fmap in Hp. unfold vertex_at.
    destruct (vertices t !! v), (vertices t' !! v);
      cbn [fmap option_fmap option_map from_option id] in *; congruence. }
  repeat split; try done.
  set (w := infinite_vertex t).
  assert (Hdim : dim (after_init r ecmap) w = dim (m_c3t3 r) w).
  { rewrite after_init_eq. unfold tag_vertices.
    destruct (tag_vertex_fold_corners
                (finite_vertices (triangulation (after_edges r ecmap)))
                (finite_vertices_NoDup _) (after_edges r ecmap, 0)) as (_ & _ & Hkeep).
    cbv zeta in Hkeep. rewrite Hkeep; cycle 1.
    { rewrite <- (same_mesh_finite_vertices _ _ (after_edges_same_mesh r ecmap)).
      fold t. intros Hin. apply List.filter_In in Hin as [_ Hin].
      unfold is_infinite_vertex in Hin. fold w in Hin.
      by rewrite Nat.eqb_refl in Hin. }
    cbn [fst]. unfold after_edges, tag_edges. rewrite tag_edge_fold_untouched; cycle 1.
    { intros e Hin.
      rewrite <- (same_mesh_finite_edges _ _ (after_facets_same_mesh r)) in Hin.
      rewrite <- (same_mesh_edge_source _ _ e (after_facets_same_mesh r)).
      rewrite <- (same_mesh_edge_target _ _ e (after_facets_same_mesh r)).
      fold t in Hin |- *.
      apply List.filter_In in Hin as [_ Hin].
      unfold is_infinite_edge, is_infinite_vertex in Hin. fold w in Hin.
      apply negb_true_iff, orb_false_iff in Hin as [H1 H2].
      split; intros Heq; rewrite Heq, Nat.eqb_refl in *; done. }
    unfold after_facets, tag_facets. rewrite tag_facet_fold_untouched; cycle 1.
    { intros f j Hin Hj.
      rewrite <- (same_mesh_finite_facets _ _ (after_cells_same_mesh r)) in Hin.
      rewrite <- (same_mesh_facet_vertex _ _ f j (after_cells_same_mesh r)).
      fold t in Hin |- *.
      apply List.filter_In in Hin as [_ Hin].
      unfold is_infinite_facet, is_infinite_vertex in Hin. fold w in Hin.
      apply negb_true_iff, orb_false_iff in Hin as [Hin H2].
      apply orb_false_iff in Hin as [H0 H1].
      intros Heq. destruct j as [|[|[|j]]]; [| | |lia];
        rewrite Heq, Nat.eqb_refl in *; done. }
    unfold after_cells, tag_cells. rewrite tag_cell_fold_untouched; [done|].
    apply finite_cells_without. }
  unfold dim in Hdim. fold t t' in Hdim.
  apply (f_equal (fun l => l !! w)) in Hp. rewrite !list_lookup_fmap in Hp.
  destruct (vertices t !! w) as [[q d]|], (vertices t' !! w) as [[q' d']|];
    cbn [fmap option_fmap option_map point in_dimension] in Hp, Hdim; congruence.
Qed.

(** *** The imaginary index is fresh *)



(** *** Corner indices *)

Lemma corners_numbered_insert (k : nat) (K : gmap Vertex_handle nat) (v : Vertex_handle) :
  K !! v = None ->
  corners_numbered k K ->
  corners_numbered (S k) (<[ v := S k ]> K).
Proof.
  intros Hv (Hsize & Hrange & Hinj). split; [|split].
  - by rewrite map_size_insert_None, Hsize.
  - intros u id. rewrite lookup_insert.
    destruct (decide (v = u)); [intros [= <-]; lia|].
    intros Hu. specialize (Hrange u id Hu). lia.
  - intros u w id. rewrite !lookup_insert.
    destruct (decide (v = u)), (decide (v = w)); subst; try done.
    + intros [= <-] Hw. specialize (Hrange w _ Hw). lia.
    + intros Hu [= <-]. specialize (Hrange u _ Hu). lia.
    + apply Hinj.
Qed.

Lemma tag_vertex_fold_numbered (l : list Vertex_handle) :
  NoDup l ->
  forall st : C3t3 * nat,
    (forall v, In v l -> corners_ st.1 !! v = None) ->
    corners_numbered st.2 (corners_ st.1) ->
    corners_numbered (fold_left tag_vertex l st).2
                     (corners_ (fold_left tag_vertex l st).1).
Proof.
  induction 1 as [|a l Ha Hnd IH]; intros st Hfree Hnum; cbn [fold_left]; [done|].
  rewrite list_elem_of_In in Ha.
  destruct (tag_vertex_marks st a) as (_ & _ & Hcorners). cbv zeta in Hcorners.
  apply IH.
  - intros v Hv. rewrite Hcorners.
    destruct (vertex_is_corner st.1 a); [|apply Hfree; by right].
    rewrite lookup_insert_ne by (intros ->; done). apply Hfree. by right.
  - rewrite Hcorners. rewrite tag_vertex_eq.
    destruct (vertex_is_corner st.1 a); [|done]. cbn [snd].
    apply corners_numbered_insert; [|done]. apply Hfree. by left.
Qed.

(** After the constructor the registered corners carry the indices 1 to
    n, n being their number, each index once. *)
Theorem init_c3t3_numbers_corners (t : Triangulation) (sizing : SizingFunction)
    (p : bool) (ecmap : EdgeIsConstrainedMap) (sel : CellSelector) :
  let K := corners_ (m_c3t3 (this (Adaptive_remesher_new t sizing p ecmap sel).1)) in
  (forall v id, K !! v = Some id -> 1 <= id <= size K)
  /\ (forall v w id, K !! v = Some id -> K !! w = Some id -> v = w).
Proof.
  cbv zeta.
  set (r := fresh_remesher t sizing p sel).
  change (m_c3t3 (this (Adaptive_remesher_new t sizing p ecmap sel).1))
    with (after_init r ecmap).
  rewrite after_init_eq. unfold tag_vertices.
  destruct (tag_vertex_fold_numbered
              (finite_vertices (triangulation (after_edges r ecmap)))
              (finite_vertices_NoDup _) (after_edges r ecmap, 0))
    as (Hsize & Hrange & Hinj).
  - intros v _. cbn [fst]. rewrite after_edges_corners.
    change (corners_ (m_c3t3 r)) with (∅ : gmap nat nat). apply lookup_empty.
  - cbn [fst snd]. rewrite after_edges_corners.
    change (corners_ (m_c3t3 r)) with (∅ : gmap nat nat).
    split; [apply map_size_empty | split; intros *; by rewrite lookup_empty].
  - rewrite Hsize. by split.
Qed.

(** *** The default edge constraint map *)

(** With [No_constraint_pmap], which declares no edge constrained, the
    complex edges after the constructor are the finite edges with more
    than two incident subdomains. *)
Theorem No_constraint_pmap_complex_edges (t : Triangulation) (sizing : SizingFunction)
    (p : bool) (sel : CellSelector) :
  edges_ (m_c3t3 (this (Adaptive_remesher_new t sizing p No_constraint_pmap sel).1))
  = list_to_set (make_vertex_pair t
                 <$> List.filter (fun e => Nat.ltb 2 (nb_subdomains_around t e))
                       (finite_edges t)).
Proof.
  change (m_c3t3 (this (Adaptive_remesher_new t sizing p No_constraint_pmap sel).1))
    with (after_init (fresh_remesher t sizing p sel) No_constraint_pmap).
  rewrite fresh_remesher_edges. reflexivity.
Qed.

(** *** resolution_reached: output and the flag *)

Lemma resolution_reached_from_output (ext : Collaborators) (r : Adaptive_remesher)
    (sqmin sqmax : FT) (l : list Edge) :
  (resolution_reached_from ext r sqmin sqmax l).2
  = if (resolution_reached_from ext r sqmin sqmax l).1
    then ["Resolution reached"] else [].
Proof.
  induction l as [|e l IH]; cbn [resolution_reached_from]; [done|].
  destruct (_ && _); [done|]. destruct (is_imaginary _ _ _ _); [done|].
  by destruct (_ || _).
Qed.

(** [resolution_reached] writes the line "Resolution reached" exactly
    when it returns true; it writes nothing when it returns false. *)
Theorem resolution_reached_output (ext : Collaborators) (r : Adaptive_remesher) :
  (resolution_reached ext r).2
  = if (resolution_reached ext r).1 then ["Resolution reached"] else [].
Proof. apply resolution_reached_from_output. Qed.

(** Protecting the boundaries only takes edges out of the test: when the
    resolution is reached without protection, it is reached with it. *)
Theorem resolution_reached_protected (ext : Collaborators) (r : Adaptive_remesher)
    (b : bool) :
  (resolution_reached ext (with_protect_boundaries r false)).1 = true ->
  (resolution_reached ext (with_protect_boundaries r b)).1 = true.
Proof.
  unfold resolution_reached. rewrite !resolution_reached_from_true.
  intros H e Hin Hm. apply (H e Hin).
  unfold edge_is_measured in *.
  cbn [with_protect_boundaries m_protect_boundaries m_c3t3 m_cell_selector
       m_imaginary_index andb negb] in *.
  apply andb_true_iff in Hm as [_ Hi]. exact Hi.
Qed.

Lemma resolution_reached_protected_witness :
  let r := this (Adaptive_remesher_new Examples.single_tetrahedron
                   (fun _ => (5 / 4)%Q) false No_constraint_pmap
                   Examples.select_all).1 in
  (resolution_reached Examples.idle (with_protect_boundaries r false)).1 = true
  /\ (resolution_reached Examples.idle (with_protect_boundaries r true)).1 = true.
Proof.
  cbv zeta.
  assert (H : (resolution_reached Examples.idle
                 (with_protect_boundaries
                    (this (Adaptive_remesher_new Examples.single_tetrahedron
                             (fun _ => (5 / 4)%Q) false No_constraint_pmap
                             Examples.select_all).1) false)).1 = true)
    by (vm_compute; reflexivity).
  split; [exact H|].
  exact (resolution_reached_protected Examples.idle _ true H).
Defined.

(** *** postprocess twice *)

Lemma unset_imaginary_cells_again (r : Adaptive_remesher) :
  unset_imaginary_cells (with_c3t3 r (unset_imaginary_cells r))
  = unset_imaginary_cells r.
Proof.
  pose proof (unset_imaginary_cells_cell_at r) as Hcell.
  destruct (unset_fold_frame (m_imaginary_index r) (finite_cells (tr r)) (m_c3t3 r))
    as (Hv & Hi & Hf & He & Hfs & Hes & Hcs).
  cbv zeta in Hv, Hi, Hf, He, Hfs, Hes, Hcs.
  pose proof (unset_fold_length (m_imaginary_index r) (finite_cells (tr r)) (m_c3t3 r))
    as Hlen.
  fold (unset_imaginary_cells r) in Hv, Hi, Hf, He, Hfs, Hes, Hcs, Hlen.
  set (c1 := unset_imaginary_cells r) in *.
  assert (Hfin : finite_cells (triangulation c1) = finite_cells (tr r)).
  { unfold finite_cells, all_cells, Triangulation_iterators_3.finite_elements.
    rewrite Hlen. apply List.filter_ext. intros a.
    unfold is_infinite_cell. rewrite Hcell, Hi.
    by destruct (bool_decide _ && _). }
  destruct (unset_fold_frame (m_imaginary_index r) (finite_cells (tr r)) c1)
    as (Hv2 & Hi2 & Hf2 & He2 & Hfs2 & Hes2 & Hcs2).
  cbv zeta in Hv2, Hi2, Hf2, He2, Hfs2, Hes2, Hcs2.
  assert (Heq : unset_imaginary_cells (with_c3t3 r c1)
                = fold_left (unset_imaginary_cell (m_imaginary_index r))
                    (finite_cells (tr r)) c1).
  { change (unset_imaginary_cells (with_c3t3 r c1))
      with (fold_left (unset_imaginary_cell (m_imaginary_index r))
              (finite_cells (triangulation c1)) c1).
    by rewrite Hfin. }
  rewrite Heq.
  set (c2 := fold_left (unset_imaginary_cell (m_imaginary_index r))
               (finite_cells (tr r)) c1) in *.
  assert (Hcells : cells (triangulation c2) = cells (triangulation c1)).
  { apply list_eq. intros ch. unfold c2. rewrite unset_fold_cells.
    unfold c1, unset_imaginary_cells. rewrite unset_fold_cells.
    destruct (cells (triangulation (m_c3t3 r)) !! ch) as [x|]; [|done].
    cbn [fmap option_fmap option_map]. f_equal.
    destruct (bool_decide _); [apply unset_cell_idempotent | done]. }
  destruct c2 as [[vs2 cs2 i2 f2 e2] F2 E2 K2], c1 as [[vs1 cs1 i1 f1 e1] F1 E1 K1].
  cbn [triangulation vertices cells infinite_vertex tds_facets tds_edges
       facets_ edges_ corners_] in *.
  congruence.
Qed.

(** [postprocess] is idempotent: run on its own result, it returns that
    result again. *)
Theorem postprocess_idempotent (ext : Collaborators) (r r' : Adaptive_remesher) :
  postprocess ext r = Some r' -> postprocess ext r' = Some r'.
Proof.
  intros H. apply CGAL_assertion_Some in H as [Hvalid ->].
  unfold postprocess. fold (unset_imaginary_cells r).
  fold (unset_imaginary_cells (with_c3t3 r (unset_imaginary_cells r))).
  rewrite unset_imaginary_cells_again.
  fold (unset_imaginary_cells r) in Hvalid. by rewrite Hvalid.
Qed.

Lemma postprocess_idempotent_witness :
  let r := this (Adaptive_remesher_new Examples.single_tetrahedron
                   Examples.unit_sizing false No_constraint_pmap
                   Examples.select_none).1 in
  postprocess Examples.idle r = Some (with_c3t3 r (unset_imaginary_cells r))
  /\ postprocess Examples.idle (with_c3t3 r (unset_imaginary_cells r))
     = Some (with_c3t3 r (unset_imaginary_cells r)).
Proof.
  cbv zeta.
  assert (H : postprocess Examples.idle
                (this (Adaptive_remesher_new Examples.single_tetrahedron
                         Examples.unit_sizing false No_constraint_pmap
                         Examples.select_none).1)
              = Some (with_c3t3
                        (this (Adaptive_remesher_new Examples.single_tetrahedron
                                 Examples.unit_sizing false No_constraint_pmap
                                 Examples.select_none).1)
                        (unset_imaginary_cells
                           (this (Adaptive_remesher_new Examples.single_tetrahedron
                                    Examples.unit_sizing false No_constraint_pmap
                                    Examples.select_none).1))))
    by (vm_compute; reflexivity).
  split; [exact H|].
  exact (postprocess_idempotent Examples.idle _ _ H).
Defined.

(** *** finalize twice *)

(** [finalize] only exchanges the two triangulations, and calling it a
    second time puts both back. *)
Theorem finalize_involutive (s : Store) :
  finalize (finalize s) = s
  /\ facets_ (m_c3t3 (this (finalize s))) = facets_ (m_c3t3 (this s))
  /\ edges_ (m_c3t3 (this (finalize s))) = edges_ (m_c3t3 (this s))
  /\ corners_ (m_c3t3 (this (finalize s))) = corners_ (m_c3t3 (this s))
  /\ m_imaginary_index (this (finalize s)) = m_imaginary_index (this s).
Proof. by destruct s as [t [sz p [t' F E K] sel im]]. Qed.

(** *** The assertions of the phases *)

(** [split] and [collapse] have no result when some finite vertex has a
    dimension outside 0..3: the assertion at their entry fails.  If one
    of them has a result, every finite vertex was classified. *)
Theorem split_and_collapse_assert_dimensions (ext : Collaborators)
    (r : Adaptive_remesher) :
  ((exists v, In v (finite_vertices (tr r))
              /\ ((dimension_of (m_c3t3 r) v < 0)%Z \/ (3 < dimension_of (m_c3t3 r) v)%Z)) ->
   split ext r = None /\ collapse ext r = None)
  /\ (is_Some (split ext r) \/ is_Some (collapse ext r) ->
      dimensions_classified (m_c3t3 r)).
Proof.
  split.
  - intros (v & Hin & Hv).
    assert (Hcheck : check_vertex_dimensions r = false).
    { destruct (check_vertex_dimensions r) eqn:Hc; [|done].
      apply check_vertex_dimensions_true in Hc. specialize (Hc v Hin). lia. }
    unfold split, collapse. by rewrite Hcheck.
  - intros H. apply check_vertex_dimensions_true.
    unfold split, collapse in H.
    destruct (check_vertex_dimensions r); [done|].
    destruct H as [[? H] | [? H]]; discriminate H.
Qed.

(** [check_vertex_dimensions] returns true exactly when the dimension of
    every finite vertex is 0, 1, 2 or 3; the dimension of the infinite
    vertex does not matter. *)
Theorem check_vertex_dimensions_iff (r : Adaptive_remesher) :
  check_vertex_dimensions r = true
  <-> forall v, v < length (vertices (tr r)) -> v <> infinite_vertex (tr r) ->
                (0 <= dimension_of (m_c3t3 r) v <= 3)%Z.
Proof.
  rewrite check_vertex_dimensions_true. unfold dimensions_classified. fold (tr r).
  split; intros H v.
  - intros Hlt Hne. apply H. apply List.filter_In. split.
    + apply List.in_seq. lia.
    + apply negb_true_iff, Nat.eqb_neq. exact Hne.
  - intros Hin. apply List.filter_In in Hin as [Hin Hne].
    apply List.in_seq in Hin. apply negb_true_iff, Nat.eqb_neq in Hne.
    apply H; [lia | exact Hne].
Qed.


